(** * Session store, session resolver, model fallback and gateway call

    A shallow embedding of the reliability core of the assistant control
    plane: the session store (loadSessionStore, updateSessionStore,
    updateSessionStoreEntry, updateLastRoute), the session resolver
    (resolveSession), the model fallback loop (runWithModelFallback) and
    the single-shot gateway call (callGateway).

    JavaScript objects are finite maps from property names to values.
    Date.now() is a clock carried by the world, the file system is a
    finite map from paths to files, and the process-wide cache is a map
    in the same world.  A callback with effects threads an explicit
    state; helpers imported from modules that are not part of the
    sources are Section variables.  Disk faults (ENOENT and the like) and
    callbacks that throw inside a store transaction are left out. *)

From stdpp Require Import gmap strings list fin_maps.
From Stdlib Require Import ZArith Lia Ascii DecimalString.

Set Warnings "-register-all".

(** ** JavaScript values *)

Module Js.

(** A JSON-like JavaScript value.  Numbers are the integers the code
    handles (millisecond timestamps); objects are finite maps. *)
Inductive JsVal : Type :=
| JUndefined
| JNull
| JBool (b : bool)
| JNum (z : Z)
| JNaN
| JStr (s : string)
| JObj (fields : gmap string JsVal)
| JArr (items : list JsVal).

(** [!!v] *)
Definition truthy (v : JsVal) : bool :=
  match v with
  | JUndefined | JNull | JNaN => false
  | JBool b => b
  | JNum z => negb (z =? 0)%Z
  | JStr s => negb (String.eqb s "")
  | JObj _ | JArr _ => true
  end.

(** [o[k]] for an optional property of an optional value: [o?.k]. *)
Definition prop (v : JsVal) (k : string) : JsVal :=
  match v with
  | JObj m => default JUndefined (m !! k)
  | _ => JUndefined
  end.

(** [rec.k] on a property map. *)
Definition field (rec : gmap string JsVal) (k : string) : JsVal :=
  default JUndefined (rec !! k).

(** [typeof v === "string"] *)
Definition isString (v : JsVal) : bool :=
  match v with JStr _ => true | _ => false end.

(** [v ?? d] *)
Definition nullish (v d : JsVal) : JsVal :=
  match v with JUndefined | JNull => d | _ => v end.

(** [a === b] on primitives; two objects are compared by reference in
    JavaScript, which a value model cannot see: they count as distinct. *)
Definition strictEq (a b : JsVal) : bool :=
  match a, b with
  | JUndefined, JUndefined => true
  | JNull, JNull => true
  | JBool x, JBool y => Bool.eqb x y
  | JNum x, JNum y => (x =? y)%Z
  | JStr x, JStr y => String.eqb x y
  | _, _ => false
  end.

(** [Math.max(a, b)] where [b] is a number; a first argument that is not
    a number gives NaN (numeric strings are not converted here). *)
Definition mathMax (a : JsVal) (b : Z) : JsVal :=
  match a with
  | JNum x => JNum (Z.max x b)
  | _ => JNaN
  end.

(** [JSON.parse(JSON.stringify(v))]: properties holding [undefined] are
    dropped, [undefined] array items become [null], NaN becomes [null]. *)
Fixpoint jsonRoundtrip (v : JsVal) : JsVal :=
  match v with
  | JNaN => JNull
  | JObj m =>
      JObj (omap (fun x => match x with
                           | JUndefined => None
                           | _ => Some (jsonRoundtrip x)
                           end) m)
  | JArr l =>
      JArr ((fun x => match x with
                      | JUndefined => JNull
                      | _ => jsonRoundtrip x
                      end) <$> l)
  | _ => v
  end.

(** White space removed by [String.prototype.trim], on the ASCII range. *)
Definition isSpace (a : ascii) : bool :=
  let n := nat_of_ascii a in
  (n =? 32)%nat || ((9 <=? n)%nat && (n <=? 13)%nat).

Fixpoint trimStart (s : string) : string :=
  match s with
  | EmptyString => EmptyString
  | String a r => if isSpace a then trimStart r else s
  end.

Fixpoint revOnto (s acc : string) : string :=
  match s with
  | EmptyString => acc
  | String a r => revOnto r (String a acc)
  end.

Definition trim (s : string) : string :=
  revOnto (trimStart (revOnto (trimStart s) "")) "".

(** [`${n}`] for an integer. *)
Definition showZ (z : Z) : string := NilZero.string_of_int (Z.to_int z).

Definition showNat (n : nat) : string := showZ (Z.of_nat n).

(** [parts.join(sep)] *)
Fixpoint join (sep : string) (parts : list string) : string :=
  match parts with
  | [] => ""
  | [p] => p
  | p :: rest => p +:+ sep +:+ join sep rest
  end.

End Js.

(** ** The session store *)

Module SessionStore.
Import Js.

Local Open Scope Z_scope.

(** What JSON5.parse makes of a file's text: it throws, or yields a value. *)
Inductive FileContent : Type :=
| Corrupt
| Json (v : JsVal).

Record FileNode : Type := mkFile {
  content : FileContent;
  mtimeMs : Z
}.

(** SessionStoreCacheEntry *)
Record CacheEntry : Type := mkCacheEntry {
  ce_store : gmap string JsVal;
  ce_loadedAt : Z;
  ce_mtimeMs : option Z
}.

(** The state the store code runs against: the file system (shared with
    other processes), this process's SESSION_STORE_CACHE, the clock read
    by Date.now(), and the list of store paths written so far. *)
Record World : Type := mkWorld {
  files : gmap string FileNode;
  cache : gmap string CacheEntry;
  clock : Z;
  writes : list string
}.

Definition withFiles (f : gmap string FileNode) (w : World) : World :=
  mkWorld f (cache w) (clock w) (writes w).

Definition withCache (c : gmap string CacheEntry) (w : World) : World :=
  mkWorld (files w) c (clock w) (writes w).

Definition withClock (t : Z) (w : World) : World :=
  mkWorld (files w) (cache w) t (writes w).

(** What a function body leaves behind: a value or a thrown error. *)
Inductive Outcome (A : Type) : Type :=
| Returned (a : A)
| Threw (message : string).
Arguments Returned {A} a.
Arguments Threw {A} message.

(** NormalizedSessionDeliveryFields, the result of the delivery-context
    helper [normalizeSessionDeliveryFields]. *)
Record DeliveryFields : Type := mkDeliveryFields {
  df_deliveryContext : JsVal;
  df_lastChannel : JsVal;
  df_lastTo : JsVal;
  df_lastAccountId : JsVal;
  df_lastThreadId : JsVal
}.

(** isSessionStoreRecord *)
Definition isSessionStoreRecord (v : JsVal) : bool :=
  match v with JObj _ => true | _ => false end.

(** The three in-place migrations of loadSessionStore, on one entry's
    property map. *)
Definition migrateProvider (rec : gmap string JsVal) : gmap string JsVal :=
  if negb (isString (field rec "channel")) && isString (field rec "provider")
  then delete "provider" (<["channel" := field rec "provider"]> rec)
  else rec.

Definition migrateLastProvider (rec : gmap string JsVal) : gmap string JsVal :=
  if negb (isString (field rec "lastChannel")) && isString (field rec "lastProvider")
  then delete "lastProvider" (<["lastChannel" := field rec "lastProvider"]> rec)
  else rec.

Definition migrateRoom (rec : gmap string JsVal) : gmap string JsVal :=
  if negb (isString (field rec "groupChannel")) && isString (field rec "room")
  then delete "room" (<["groupChannel" := field rec "room"]> rec)
  else if bool_decide (is_Some (rec !! "room"))
  then delete "room" rec
  else rec.

(** One iteration of the migration loop: entries that are falsy or not
    objects are skipped; an array is an object without these properties. *)
Definition migrateEntry (entry : JsVal) : JsVal :=
  match entry with
  | JObj rec => JObj (migrateRoom (migrateLastProvider (migrateProvider rec)))
  | _ => entry
  end.

(** What the migration loop establishes for one property map: the legacy
    [room] is gone, and a string [provider] is left only beside a string
    [channel].  Every cached snapshot is a migrated store. *)
Definition migratedRecord (rec : gmap string JsVal) : Prop :=
  rec !! "room" = None /\
  (isString (field rec "provider") = true -> isString (field rec "channel") = true).

Definition migratedStore (store : gmap string JsVal) : Prop :=
  forall k rec, store !! k = Some (JObj rec) -> migratedRecord rec.

Definition cacheMigrated (w : World) : Prop :=
  forall p entry, cache w !! p = Some entry -> migratedStore (ce_store entry).

Definition lockPathOf (storePath : string) : string := storePath +:+ ".lock".

(** Modelled from the spec: mergeSessionEntry lives in the session types
    module, which is not among the sources; the spec says an update
    "merges the updater's partial result onto the existing entry", so the
    patch's properties override the existing ones. *)
Definition mergeSessionEntry (existing : JsVal) (patch : gmap string JsVal)
  : gmap string JsVal :=
  match existing with
  | JObj rec => patch ∪ rec
  | _ => patch
  end.

Section Store.

(** getSessionStoreTtl() and isCacheEnabled come from the cache helpers
    and the environment; the delivery-context and metadata helpers come
    from other modules. *)
Variable ttl : Z.
Variable isCacheEnabled : Z -> bool.
Variable normalizeSessionDeliveryFields : gmap string JsVal -> DeliveryFields.
Variable pid : Z.

Definition isSessionStoreCacheEnabled : bool := isCacheEnabled ttl.

Definition isSessionStoreCacheValid (w : World) (entry : CacheEntry) : bool :=
  clock w - ce_loadedAt entry <=? ttl.

Definition invalidateSessionStoreCache (storePath : string) (w : World) : World :=
  withCache (delete storePath (cache w)) w.

Definition getFileMtimeMs (w : World) (path : string) : option Z :=
  mtimeMs <$> files w !! path.

(** The try block of loadSessionStore: a missing file, a parse error or
    a value that is not a record all leave the store empty. *)
Definition readStoreFile (w : World) (storePath : string) : gmap string JsVal :=
  match files w !! storePath with
  | Some (mkFile (Json (JObj m)) _) => m
  | _ => ∅
  end.

(** loadSessionStore after the cache check: read, migrate, cache. *)
Definition loadFromDisk (storePath : string) (skipCache : bool) (w : World)
  : gmap string JsVal * World :=
  let store := migrateEntry <$> readStoreFile w storePath in
  let mtime := getFileMtimeMs w storePath in
  if negb skipCache && isSessionStoreCacheEnabled
  then (store, withCache (<[storePath := mkCacheEntry store (clock w) mtime]> (cache w)) w)
  else (store, w).

Definition loadSessionStore (storePath : string) (skipCache : bool) (w : World)
  : gmap string JsVal * World :=
  if negb skipCache && isSessionStoreCacheEnabled
  then
    match cache w !! storePath with
    | Some cached =>
        if isSessionStoreCacheValid w cached
        then
          if bool_decide (getFileMtimeMs w storePath = ce_mtimeMs cached)
          then (ce_store cached, w)
          else loadFromDisk storePath skipCache (invalidateSessionStoreCache storePath w)
        else loadFromDisk storePath skipCache w
    | None => loadFromDisk storePath skipCache w
    end
  else loadFromDisk storePath skipCache w.

(** normalizeSessionEntryDelivery *)
Definition normalizeSessionEntryDelivery (entry : gmap string JsVal)
  : gmap string JsVal :=
  let normalized := normalizeSessionDeliveryFields entry in
  let nextDelivery := df_deliveryContext normalized in
  let dc := field entry "deliveryContext" in
  let sameDelivery :=
    strictEq (nullish (prop dc "channel") JUndefined) (prop nextDelivery "channel")
    && strictEq (nullish (prop dc "to") JUndefined) (prop nextDelivery "to")
    && strictEq (nullish (prop dc "accountId") JUndefined) (prop nextDelivery "accountId")
    && strictEq (nullish (prop dc "threadId") JUndefined) (prop nextDelivery "threadId") in
  let sameLast :=
    strictEq (field entry "lastChannel") (df_lastChannel normalized)
    && strictEq (field entry "lastTo") (df_lastTo normalized)
    && strictEq (field entry "lastAccountId") (df_lastAccountId normalized)
    && strictEq (field entry "lastThreadId") (df_lastThreadId normalized) in
  if sameDelivery && sameLast then entry
  else
    <["lastThreadId" := df_lastThreadId normalized]>
    (<["lastAccountId" := df_lastAccountId normalized]>
    (<["lastTo" := df_lastTo normalized]>
    (<["lastChannel" := df_lastChannel normalized]>
    (<["deliveryContext" := nextDelivery]> entry)))).

(** normalizeSessionStore: falsy entries are skipped; the entries the
    store holds are objects (SessionEntry). *)
Definition normalizeSessionStore (store : gmap string JsVal) : gmap string JsVal :=
  (fun entry => match entry with
                | JObj rec => JObj (normalizeSessionEntryDelivery rec)
                | _ => entry
                end) <$> store.

(** saveSessionStoreUnlocked: invalidate the cache, normalize, write
    the JSON text.  The write itself is taken to succeed. *)
Definition saveSessionStoreUnlocked (storePath : string)
    (store : gmap string JsVal) (w : World) : World :=
  let w1 := invalidateSessionStoreCache storePath w in
  let json := jsonRoundtrip (JObj (normalizeSessionStore store)) in
  mkWorld (<[storePath := mkFile (Json json) (clock w1)]> (files w1))
          (cache w1) (clock w1) (writes w1 ++ [storePath]).

(** *** The lock sidecar *)

Definition timeoutMs : Z := 10000.
Definition pollIntervalMs : Z := 25.
Definition staleMs : Z := 30000.

Definition lockFile (w : World) : FileNode :=
  mkFile (Json (JObj {[ "pid" := JNum pid; "startedAt" := JNum (clock w) ]}))
         (clock w).

(** The acquisition loop of withSessionStoreLock, one iteration per unit
    of fuel: exclusive creation succeeds when the sidecar is absent;
    otherwise the caller gives up after [timeoutMs], evicts a sidecar
    older than [staleMs] and retries at once, or sleeps.  A sleep is
    taken to last [pollIntervalMs], the least setTimeout gives, and the
    file-system calls to take no time: of the elapsed time only lower
    bounds carry over to the code. *)
Fixpoint acquireLock (fuel : nat) (lockPath : string) (startedAt : Z) (w : World)
  : option (Outcome unit * World) :=
  match fuel with
  | O => None
  | S fuel' =>
      match files w !! lockPath with
      | None =>
          Some (Returned tt, withFiles (<[lockPath := lockFile w]> (files w)) w)
      | Some st =>
          let now := clock w in
          if timeoutMs <? now - startedAt
          then Some (Threw ("timeout acquiring session store lock: " +:+ lockPath), w)
          else if staleMs <? now - mtimeMs st
          then acquireLock fuel' lockPath startedAt
                 (withFiles (delete lockPath (files w)) w)
          else acquireLock fuel' lockPath startedAt
                 (withClock (clock w + pollIntervalMs) w)
      end
  end.

(** withSessionStoreLock: acquire, run [fn], unlink the sidecar. *)
Definition withSessionStoreLock {T : Type} (fuel : nat) (storePath : string)
    (fn : World -> Outcome T * World) (w : World) : option (Outcome T * World) :=
  let lockPath := lockPathOf storePath in
  match acquireLock fuel lockPath (clock w) w with
  | None => None
  | Some (Threw m, w1) => Some (Threw m, w1)
  | Some (Returned _, w1) =>
      let '(r, w2) := fn w1 in
      Some (r, withFiles (delete lockPath (files w2)) w2)
  end.

(** *** Locked mutations *)

(** updateSessionStore: the mutator edits the store and yields a result. *)
Definition updateSessionStore {T : Type} (fuel : nat) (storePath : string)
    (mutator : gmap string JsVal -> T * gmap string JsVal) (w : World)
  : option (Outcome T * World) :=
  withSessionStoreLock fuel storePath (fun w1 =>
    let '(store, w2) := loadSessionStore storePath true w1 in
    let '(result, store') := mutator store in
    (Returned result, saveSessionStoreUnlocked storePath store' w2)) w.

(** updateSessionStoreEntry: [update] yields a patch, or [None] for null. *)
Definition updateSessionStoreEntry (fuel : nat) (storePath sessionKey : string)
    (update : JsVal -> option (gmap string JsVal)) (w : World)
  : option (Outcome JsVal * World) :=
  withSessionStoreLock fuel storePath (fun w1 =>
    let '(store, w2) := loadSessionStore storePath false w1 in
    let existing := field store sessionKey in
    if negb (truthy existing) then (Returned JNull, w2)
    else
      match update existing with
      | None => (Returned existing, w2)
      | Some patch =>
          let next := mergeSessionEntry existing patch in
          (Returned (JObj next),
           saveSessionStoreUnlocked storePath (<[sessionKey := JObj next]> store) w2)
      end) w.

(** The arguments of updateLastRoute. *)
Record RouteParams : Type := mkRouteParams {
  rp_channel : JsVal;
  rp_to : JsVal;
  rp_accountId : JsVal;
  rp_threadId : JsVal;
  rp_deliveryContext : JsVal;
  rp_ctx : option JsVal;
  rp_groupResolution : JsVal
}.

Variable normalizeDeliveryContext : JsVal -> JsVal.
Variable mergeDeliveryContext : JsVal -> JsVal -> JsVal.
Variable deliveryContextFromSession : JsVal -> JsVal.
Variable deriveSessionMetaPatch :
  JsVal -> string -> JsVal -> JsVal -> option (gmap string JsVal).

(** mergeSessionEntry as updateLastRoute calls it.  The function is not
    among the sources; what is proved of updateLastRoute holds for
    every merge. *)
Variable mergeEntry : JsVal -> gmap string JsVal -> gmap string JsVal.

(** The patch updateLastRoute builds before merging. *)
Definition routeBasePatch (existing : JsVal) (now : Z) (params : RouteParams)
  : gmap string JsVal :=
  let explicitContext := normalizeDeliveryContext (rp_deliveryContext params) in
  let inlineContext :=
    normalizeDeliveryContext
      (JObj {[ "channel" := rp_channel params; "to" := rp_to params;
               "accountId" := rp_accountId params;
               "threadId" := rp_threadId params ]}) in
  let mergedInput := mergeDeliveryContext explicitContext inlineContext in
  let merged := mergeDeliveryContext mergedInput (deliveryContextFromSession existing) in
  let normalized :=
    normalizeSessionDeliveryFields
      {[ "deliveryContext" :=
           JObj {[ "channel" := prop merged "channel"; "to" := prop merged "to";
                   "accountId" := prop merged "accountId";
                   "threadId" := prop merged "threadId" ]} ]} in
  {[ "updatedAt" := mathMax (nullish (prop existing "updatedAt") (JNum 0)) now;
     "deliveryContext" := df_deliveryContext normalized;
     "lastChannel" := df_lastChannel normalized;
     "lastTo" := df_lastTo normalized;
     "lastAccountId" := df_lastAccountId normalized;
     "lastThreadId" := df_lastThreadId normalized ]}.

Definition routeNextEntry (existing : JsVal) (now : Z) (sessionKey : string)
    (params : RouteParams) : gmap string JsVal :=
  let metaPatch :=
    match rp_ctx params with
    | Some ctx =>
        deriveSessionMetaPatch ctx sessionKey existing (rp_groupResolution params)
    | None => None
    end in
  let basePatch := routeBasePatch existing now params in
  mergeEntry existing
    (match metaPatch with
     | Some mp => mp ∪ basePatch
     | None => basePatch
     end).

Definition updateLastRoute (fuel : nat) (storePath sessionKey : string)
    (params : RouteParams) (w : World) : option (Outcome JsVal * World) :=
  withSessionStoreLock fuel storePath (fun w1 =>
    let '(store, w2) := loadSessionStore storePath false w1 in
    let existing := field store sessionKey in
    let now := clock w2 in
    let next := routeNextEntry existing now sessionKey params in
    (Returned (JObj next),
     saveSessionStoreUnlocked storePath (<[sessionKey := JObj next]> store) w2)) w.

End Store.

End SessionStore.

(** ** The session resolver *)

Module SessionResolver.
Import Js.

Local Open Scope Z_scope.

Record SessionResolution : Type := mkResolution {
  sessionId : JsVal;
  sessionKey : option string;
  sessionEntry : JsVal;
  sessionStore : gmap string JsVal;
  storePath : string;
  isNewSession : bool;
  persistedThinking : JsVal;
  persistedVerbose : JsVal
}.

Section Resolver.

(** Collaborators of resolveSession that live in other modules, the
    reset policy and its evaluation among them:
    [evaluateSessionFreshness updatedAt now policy] is the [fresh] field
    of evaluateSessionFreshness({ updatedAt, now, policy }). *)
Variables SessionCfg ResetType ChannelReset ResetPolicy : Type.
Variable resolveSessionResetType : option string -> ResetType.
Variable resolveChannelResetConfig : SessionCfg -> JsVal -> ChannelReset.
Variable resolveSessionResetPolicy :
  SessionCfg -> ResetType -> ChannelReset -> ResetPolicy.
Variable evaluateSessionFreshness : JsVal -> Z -> ResetPolicy -> bool.
Variable normalizeThinkLevel : JsVal -> JsVal.
Variable normalizeVerboseLevel : JsVal -> JsVal.

(** [sessionKey ? sessionStore[sessionKey] : undefined] *)
Definition lookupEntry (key : option string) (store : gmap string JsVal) : JsVal :=
  match key with
  | Some k => if String.eqb k "" then JUndefined else field store k
  | None => JUndefined
  end.

Definition resolvePolicy (sessionCfg : SessionCfg) (key : option string)
    (entry : JsVal) : ResetPolicy :=
  let resetType := resolveSessionResetType key in
  let channelReset :=
    resolveChannelResetConfig sessionCfg
      (nullish (prop entry "lastChannel") (prop entry "channel")) in
  resolveSessionResetPolicy sessionCfg resetType channelReset.

(** The freshness verdict of resolveSession (its step 6). *)
Definition sessionFresh (entry : JsVal) (now : Z) (policy : ResetPolicy) : bool :=
  if truthy entry
  then evaluateSessionFreshness (prop entry "updatedAt") now policy
  else false.

(** resolveSession, from the resolved key and store on: [optSessionId]
    is opts.sessionId, [uuid] the value crypto.randomUUID() would give. *)
Definition resolveSession (sessionCfg : SessionCfg) (optSessionId : option string)
    (key : option string) (store : gmap string JsVal) (path : string)
    (now : Z) (uuid : string) : SessionResolution :=
  let entry := lookupEntry key store in
  let policy := resolvePolicy sessionCfg key entry in
  let isFresh := sessionFresh entry now policy in
  let requested := trim (default "" optSessionId) in
  let stored := if isFresh then prop entry "sessionId" else JUndefined in
  let sid :=
    if negb (String.eqb requested "") then JStr requested
    else if truthy stored then stored
    else JStr uuid in
  mkResolution sid key entry store path
    (negb isFresh && negb (truthy (JStr (default "" optSessionId))))
    (if isFresh && truthy (prop entry "thinkingLevel")
     then normalizeThinkLevel (prop entry "thinkingLevel") else JUndefined)
    (if isFresh && truthy (prop entry "verboseLevel")
     then normalizeVerboseLevel (prop entry "verboseLevel") else JUndefined).

End Resolver.

End SessionResolver.

(** ** The model fallback engine *)

Module ModelFallback.
Import Js.

(** A value caught from [run]: a primitive, or an object with the
    properties the loop looks at. *)
Inductive Thrown : Type :=
| Primitive (v : JsVal)
| ErrorObject (instanceOfError : bool) (name : option string)
              (message : string) (cause : option Thrown).

Record ModelCandidate : Type := mkCandidate {
  provider : string;
  model : string
}.

Record FallbackAttempt : Type := mkAttempt {
  a_provider : string;
  a_model : string;
  a_error : string;
  a_reason : option string;
  a_status : option Z;
  a_code : option string
}.

(** What describeFailoverError returns. *)
Record Described : Type := mkDescribed {
  d_message : string;
  d_reason : option string;
  d_status : option Z;
  d_code : option string
}.

(** The argument of the onError observer. *)
Record ErrorNotice : Type := mkNotice {
  n_provider : string;
  n_model : string;
  n_error : Thrown;
  n_attempt : nat;
  n_total : nat
}.

(** Calls made to the caller's functions, in order. *)
Inductive Event : Type :=
| EvRun (c : ModelCandidate)
| EvOnError (n : ErrorNotice).

Inductive RunOutcome (T : Type) : Type :=
| RunOk (result : T)
| RunThrow (err : Thrown).
Arguments RunOk {T} result.
Arguments RunThrow {T} err.

(** How runWithModelFallback ends. *)
Inductive FallbackResult (T : Type) : Type :=
| Success (result : T) (usedProvider usedModel : string)
          (attempts : list FallbackAttempt)
| Failure (thrown : Thrown).
Arguments Success {T} result usedProvider usedModel attempts.
Arguments Failure {T} thrown.

(** How the for loop ends: a return, a throw from inside the loop (with
    the attempts array as it stood), or all candidates used up. *)
Inductive LoopOutcome (T St : Type) : Type :=
| Finished (result : T) (c : ModelCandidate) (attempts : list FallbackAttempt)
           (st : St) (log : list Event)
| Rethrown (thrown : Thrown) (attempts : list FallbackAttempt)
           (st : St) (log : list Event)
| Exhausted (attempts : list FallbackAttempt) (lastError : option Thrown)
            (st : St) (log : list Event).
Arguments Finished {T St} result c attempts st log.
Arguments Rethrown {T St} thrown attempts st log.
Arguments Exhausted {T St} attempts lastError st log.

Definition isObject (e : Thrown) : bool :=
  match e with
  | Primitive _ => false
  | ErrorObject _ _ _ _ => true
  end.

Definition thrownTruthy (e : Thrown) : bool :=
  match e with
  | Primitive v => truthy v
  | ErrorObject _ _ _ _ => true
  end.

Definition instanceofError (e : Thrown) : bool :=
  match e with
  | Primitive _ => false
  | ErrorObject b _ _ _ => b
  end.

(** ["name" in err ? String(err.name) : ""] *)
Definition errorName (e : Thrown) : string :=
  match e with
  | ErrorObject _ (Some n) _ _ => n
  | _ => ""
  end.

(** The synthetic attempt pushed when every profile is in cooldown. *)
Definition cooldownAttempt (c : ModelCandidate) : FallbackAttempt :=
  mkAttempt (provider c) (model c)
    ("Provider " +:+ provider c +:+ " is in cooldown (all profiles unavailable)")
    (Some "rate_limit") None None.

(** One entry of the summary of the aggregate error. *)
Definition attemptLine (a : FallbackAttempt) : string :=
  a_provider a +:+ "/" +:+ a_model a +:+ ": " +:+ a_error a +:+
  match a_reason a with
  | Some r => if String.eqb r "" then "" else " (" +:+ r +:+ ")"
  | None => ""
  end.

Definition attemptsSummary (attempts : list FallbackAttempt) : string :=
  match attempts with
  | [] => "unknown"
  | _ => join " | " (attemptLine <$> attempts)
  end.

(** The error built after the loop when no single error is rethrown. *)
Definition aggregateError (attempts : list FallbackAttempt)
    (lastError : option Thrown) (candidateCount : nat) : Thrown :=
  let n := match length attempts with O => candidateCount | k => k end in
  ErrorObject true (Some "Error")
    ("All models failed (" +:+ showNat n +:+ "): " +:+ attemptsSummary attempts)
    (match lastError with
     | Some e => if instanceofError e then Some e else None
     | None => None
     end).

(** The statements after the loop. *)
Definition exhaustion (attempts : list FallbackAttempt)
    (lastError : option Thrown) (candidateCount : nat) : Thrown :=
  match lastError with
  | Some e =>
      if (length attempts <=? 1)%nat && thrownTruthy e then e
      else aggregateError attempts lastError candidateCount
  | None => aggregateError attempts lastError candidateCount
  end.

(** The calls made by the time the loop ended. *)
Definition outcomeLog {T St : Type} (o : LoopOutcome T St) : list Event :=
  match o with
  | Finished _ _ _ _ log => log
  | Rethrown _ _ _ log => log
  | Exhausted _ _ _ log => log
  end.

Fixpoint runsOf (log : list Event) : list ModelCandidate :=
  match log with
  | [] => []
  | EvRun c :: rest => c :: runsOf rest
  | EvOnError _ :: rest => runsOf rest
  end.

Section Fallback.

(** [T] is the result type of [run]; [St] is the state of everything the
    callbacks touch (providers, clock, the caller's variables). *)
Context {T St AuthStore : Type}.

(** The failover classification and the auth-profile helpers live in
    other modules. *)
Variable isFailoverError : Thrown -> bool.
Variable isTimeoutError : Thrown -> bool.
Variable coerceToFailoverError : Thrown -> ModelCandidate -> option Thrown.
Variable describeFailoverError : Thrown -> Described.
Variable resolveAuthProfileOrder : AuthStore -> string -> list string.
Variable isProfileInCooldown : AuthStore -> string -> St -> bool.

(** The arguments of a call. *)
Variable authStore : option AuthStore.
Variable run : string -> string -> St -> RunOutcome T * St.
Variable onError : option (ErrorNotice -> St -> option Thrown * St).

Definition isAbortError (err : Thrown) : bool :=
  if negb (thrownTruthy err) || negb (isObject err) then false
  else if isFailoverError err then false
  else String.eqb (errorName err) "AbortError".

Definition shouldRethrowAbort (err : Thrown) : bool :=
  isAbortError err && negb (isTimeoutError err).

(** The cooldown pre-check of one iteration. *)
Definition cooldownSkip (c : ModelCandidate) (st : St) : bool :=
  match authStore with
  | Some store =>
      let profileIds := resolveAuthProfileOrder store (provider c) in
      let isAnyProfileAvailable :=
        existsb (fun id => negb (isProfileInCooldown store id st)) profileIds in
      (0 <? length profileIds)%nat && negb isAnyProfileAvailable
  | None => false
  end.

(** [coerceToFailoverError(err, ...) ?? err] *)
Definition normalizeError (err : Thrown) (c : ModelCandidate) : Thrown :=
  default err (coerceToFailoverError err c).

Definition failedAttempt (c : ModelCandidate) (normalized : Thrown)
  : FallbackAttempt :=
  let described := describeFailoverError normalized in
  mkAttempt (provider c) (model c) (d_message described)
    (d_reason described) (d_status described) (d_code described).

(** [await params.onError?.(...)]: the observer may itself throw. *)
Definition notify (n : ErrorNotice) (st : St) : option Thrown * St :=
  match onError with
  | Some observer => observer n st
  | None => (None, st)
  end.

Definition notifyLog (n : ErrorNotice) : list Event :=
  match onError with
  | Some _ => [EvOnError n]
  | None => []
  end.

(** The for loop over the candidates from index [i] on; [total] is
    candidates.length. *)
Fixpoint fallbackLoop (total i : nat) (candidates : list ModelCandidate)
    (attempts : list FallbackAttempt) (lastError : option Thrown)
    (st : St) (log : list Event) : LoopOutcome T St :=
  match candidates with
  | [] => Exhausted attempts lastError st log
  | c :: rest =>
      if cooldownSkip c st
      then fallbackLoop total (S i) rest (attempts ++ [cooldownAttempt c])
             lastError st log
      else
        let '(out, st1) := run (provider c) (model c) st in
        let log1 := log ++ [EvRun c] in
        match out with
        | RunOk result => Finished result c attempts st1 log1
        | RunThrow err =>
            if shouldRethrowAbort err then Rethrown err attempts st1 log1
            else
              let normalized := normalizeError err c in
              if negb (isFailoverError normalized)
              then Rethrown err attempts st1 log1
              else
                let attempts1 := attempts ++ [failedAttempt c normalized] in
                let n := mkNotice (provider c) (model c) normalized (i + 1) total in
                let '(thrown, st2) := notify n st1 in
                let log2 := log1 ++ notifyLog n in
                match thrown with
                | Some e => Rethrown e attempts1 st2 log2
                | None =>
                    fallbackLoop total (S i) rest attempts1 (Some normalized)
                      st2 log2
                end
        end
  end.

(** runWithModelFallback on the resolved candidate list: the result,
    the final state and the calls made. *)
Definition runWithModelFallback (candidates : list ModelCandidate) (st : St)
  : FallbackResult T * St * list Event :=
  match fallbackLoop (length candidates) 0 candidates [] None st [] with
  | Finished result c attempts st' log =>
      (Success result (provider c) (model c) attempts, st', log)
  | Rethrown thrown _ st' log => (Failure thrown, st', log)
  | Exhausted attempts lastError st' log =>
      (Failure (exhaustion attempts lastError (length candidates)), st', log)
  end.

End Fallback.

End ModelFallback.

(** ** The gateway call *)

Module GatewayCall.
Import Js.

Local Open Scope Z_scope.

(** What the promise of callGateway is rejected with: an error built
    here from a message, or the value caught from client.request. *)
Inductive Rejection (E : Type) : Type :=
| NewError (message : string)
| Caught (e : E).
Arguments NewError {E} message.
Arguments Caught {E} e.

(** [value] is absent when resolve is handed undefined. *)
Inductive Settlement (T E : Type) : Type :=
| Resolved (value : option T)
| Rejected (err : Rejection E).
Arguments Resolved {T E} value.
Arguments Rejected {T E} err.

(** The variables the promise executor closes over, the promise itself,
    and counters of the calls to resolve/reject and to client.stop(). *)
Record CallState (T E : Type) : Type := mkCall {
  settled : bool;
  ignoreClose : bool;
  timerCleared : bool;
  promise : option (Settlement T E);
  settleCalls : nat;
  clientStops : nat
}.
Arguments mkCall {T E}.
Arguments settled {T E}.
Arguments ignoreClose {T E}.
Arguments timerCleared {T E}.
Arguments promise {T E}.
Arguments settleCalls {T E}.
Arguments clientStops {T E}.

(** What can happen after client.start(): the request made in onHelloOk
    completes or fails, the connection closes, the timer fires. *)
Inductive Signal (T E : Type) : Type :=
| RequestOk (result : T)
| RequestFailed (err : E)
| Closed (code : Z) (reason : string)
| TimerFired.
Arguments RequestOk {T E} result.
Arguments RequestFailed {T E} err.
Arguments Closed {T E} code reason.
Arguments TimerFired {T E}.

Section Call.

Context {T E : Type}.

(** [errTruthy e] is [!!e] for a caught value; [details] is
    connectionDetails.message. *)
Variable errTruthy : E -> bool.
Variable details : string.
Variable timeoutMs : Z.

Definition formatCloseError (code : Z) (reason : string) : string :=
  let reasonText := if String.eqb (trim reason) "" then "no close reason" else trim reason in
  let hint :=
    if code =? 1006 then "abnormal closure (no close frame)"
    else if code =? 1000 then "normal closure" else "" in
  let suffix := if String.eqb hint "" then "" else " " +:+ hint in
  "gateway closed (" +:+ showZ code +:+ suffix +:+ "): " +:+ reasonText
    +:+ String (ascii_of_nat 10) details.

Definition formatTimeoutError : string :=
  "gateway timeout after " +:+ showZ timeoutMs +:+ "ms"
    +:+ String (ascii_of_nat 10) details.

Definition initial : CallState T E := mkCall false false false None 0 0.

(** A promise keeps its first settlement. *)
Definition settlePromise (p : option (Settlement T E)) (s : Settlement T E)
  : option (Settlement T E) :=
  match p with
  | Some _ => p
  | None => Some s
  end.

Definition rejectionTruthy (r : Rejection E) : bool :=
  match r with
  | NewError _ => true
  | Caught e => errTruthy e
  end.

(** [stop(err, value)] *)
Definition stop (err : option (Rejection E)) (value : option T)
    (st : CallState T E) : CallState T E :=
  if settled st then st
  else
    let outcome :=
      match err with
      | Some r => if rejectionTruthy r then Rejected r else Resolved value
      | None => Resolved value
      end in
    mkCall true (ignoreClose st) true (settlePromise (promise st) outcome)
           (S (settleCalls st)) (clientStops st).

Definition setIgnoreClose (st : CallState T E) : CallState T E :=
  mkCall (settled st) true (timerCleared st) (promise st)
         (settleCalls st) (clientStops st).

(** [client.stop()] *)
Definition clientStop (st : CallState T E) : CallState T E :=
  mkCall (settled st) (ignoreClose st) (timerCleared st) (promise st)
         (settleCalls st) (S (clientStops st)).

(** The continuation of onHelloOk, the onClose callback and the timer
    callback, statement by statement. *)
Definition handle (sig : Signal T E) (st : CallState T E) : CallState T E :=
  match sig with
  | RequestOk result =>
      clientStop (stop None (Some result) (setIgnoreClose st))
  | RequestFailed err =>
      stop (Some (Caught err)) None (clientStop (setIgnoreClose st))
  | Closed code reason =>
      if settled st || ignoreClose st then st
      else stop (Some (NewError (formatCloseError code reason))) None
             (clientStop (setIgnoreClose st))
  | TimerFired =>
      stop (Some (NewError formatTimeoutError)) None
        (clientStop (setIgnoreClose st))
  end.

(** The state after a sequence of signals, oldest first. *)
Definition afterSignals (sigs : list (Signal T E)) : CallState T E :=
  fold_left (fun st sig => handle sig st) sigs initial.

End Call.

End GatewayCall.

(** ** Concrete worlds and collaborators used to exercise the model *)

Module Scenarios.
Import Js.

Local Open Scope Z_scope.

(** *** Session store *)

Definition ttl : Z := 45000.

Definition cacheOn (t : Z) : bool := 0 <? t.

(** A delivery normalizer that reports the entry's fields as they are. *)
Definition plainDeliveryFields (rec : gmap string JsVal)
  : SessionStore.DeliveryFields :=
  SessionStore.mkDeliveryFields
    (nullish (field rec "deliveryContext") JUndefined)
    (field rec "lastChannel") (field rec "lastTo")
    (field rec "lastAccountId") (field rec "lastThreadId").

Definition storePath : string := "sessions.json".

Definition entryA : JsVal :=
  JObj {[ "sessionId" := JStr "s-a"; "updatedAt" := JNum 100 ]}.

Definition entryB : JsVal :=
  JObj {[ "sessionId" := JStr "s-b"; "updatedAt" := JNum 200 ]}.

Definition fileOf (store : gmap string JsVal) (mtime : Z) : SessionStore.FileNode :=
  SessionStore.mkFile (SessionStore.Json (JObj store)) mtime.

(** A world without cache whose store file holds entry "a". *)
Definition coldWorld : SessionStore.World :=
  SessionStore.mkWorld {[ storePath := fileOf {[ "a" := entryA ]} 500 ]} ∅ 1010 [].

(** This process cached the store at time 500, when it held only "a";
    another process then added "b" within the same millisecond, so the
    file's mtime still equals the cached one. *)
Definition staleCacheWorld : SessionStore.World :=
  SessionStore.mkWorld
    {[ storePath := fileOf {[ "a" := entryA; "b" := entryB ]} 500 ]}
    {[ storePath := SessionStore.mkCacheEntry {[ "a" := entryA ]} 500 (Some 500) ]}
    1010 [].

Definition thinkHigh (existing : JsVal) : option (gmap string JsVal) :=
  Some {[ "thinkingLevel" := JStr "high" ]}.


(** The same edit as [thinkHigh] on key "a", written as a store mutator. *)
Definition thinkHighMutator (store : gmap string JsVal) : JsVal * gmap string JsVal :=
  let next := SessionStore.mergeSessionEntry (field store "a")
                {[ "thinkingLevel" := JStr "high" ]} in
  (JObj next, <["a" := JObj next]> store).

(** An entry that carries both the legacy and the current channel name,
    and one that carries only legacy names. *)
Definition bothNamesEntry : JsVal :=
  JObj {[ "channel" := JStr "telegram"; "provider" := JStr "whatsapp" ]}.

Definition legacyEntry : JsVal :=
  JObj {[ "provider" := JStr "whatsapp"; "room" := JStr "#general" ]}.

Definition legacyWorld : SessionStore.World :=
  SessionStore.mkWorld
    {[ storePath := fileOf {[ "k" := bothNamesEntry; "old" := legacyEntry ]} 500 ]}
    ∅ 1010 [].

Definition routeParams : SessionStore.RouteParams :=
  SessionStore.mkRouteParams (JStr "telegram") (JStr "+15551234567")
    JUndefined JUndefined JUndefined None JUndefined.

Definition keepContext (v : JsVal) : JsVal := v.

Definition preferFirst (a b : JsVal) : JsVal :=
  match a with JObj _ => a | _ => b end.

Definition contextOfSession (existing : JsVal) : JsVal :=
  prop existing "deliveryContext".

Definition noMetaPatch (ctx : JsVal) (key : string) (existing groupResolution : JsVal)
  : option (gmap string JsVal) := None.

(** *** Session resolver *)

(** A policy chain that always settles on a window of 100 ms, and an
    evaluator that finds an entry fresh while it is no older than the
    window. *)
Definition windowPolicy : Z := 100.

Definition resetTypeOf (key : option string) : unit := tt.

Definition channelResetOf (cfg : unit) (channel : JsVal) : unit := tt.

Definition policyOf (cfg : unit) (resetType channelReset : unit) : Z := windowPolicy.

Definition freshWithin (updatedAt : JsVal) (now window : Z) : bool :=
  match updatedAt with
  | JNum t => now - t <=? window
  | _ => false
  end.

Definition levelOf (v : JsVal) : JsVal := v.

Definition boundaryStore : gmap string JsVal :=
  {[ "main" := JObj {[ "sessionId" := JStr "s-main"; "updatedAt" := JNum 900 ]} ]}.

(** *** Model fallback *)

Definition candidate (p : string) : ModelFallback.ModelCandidate :=
  ModelFallback.mkCandidate p "m1".

Definition plainError (message : string) : ModelFallback.Thrown :=
  ModelFallback.ErrorObject true (Some "Error") message None.

Definition rateLimited : ModelFallback.Thrown := plainError "rate limit exceeded".

Definition timedOut : ModelFallback.Thrown :=
  ModelFallback.ErrorObject true (Some "AbortError") "request timed out" None.

Definition cancelled : ModelFallback.Thrown :=
  ModelFallback.ErrorObject true (Some "AbortError") "aborted by user" None.

(** instanceof FailoverError *)
Definition isFailover (e : ModelFallback.Thrown) : bool :=
  match e with
  | ModelFallback.ErrorObject _ (Some n) _ _ => String.eqb n "FailoverError"
  | _ => false
  end.

Definition isTimeout (e : ModelFallback.Thrown) : bool :=
  match e with
  | ModelFallback.ErrorObject _ _ m _ => String.eqb m "request timed out"
  | ModelFallback.Primitive _ => false
  end.

(** A classifier that hands a FailoverError back as it is and wraps a
    rate-limit or timeout error into a new FailoverError caused by it. *)
Definition coerce (e : ModelFallback.Thrown) (c : ModelFallback.ModelCandidate)
  : option ModelFallback.Thrown :=
  if isFailover e then Some e
  else
    match e with
    | ModelFallback.ErrorObject _ _ m _ =>
        if String.eqb m "rate limit exceeded" || String.eqb m "request timed out"
        then Some (ModelFallback.ErrorObject true (Some "FailoverError") m (Some e))
        else None
    | ModelFallback.Primitive _ => None
    end.

Definition describe (e : ModelFallback.Thrown) : ModelFallback.Described :=
  match e with
  | ModelFallback.ErrorObject _ _ m _ =>
      ModelFallback.mkDescribed m
        (Some (if String.eqb m "request timed out" then "timeout" else "rate_limit"))
        None None
  | ModelFallback.Primitive _ => ModelFallback.mkDescribed "" None None None
  end.

(** Provider "cool" has two profiles, both cooling down; no other
    provider has a stored profile. *)
Definition profilesOf (store : unit) (p : string) : list string :=
  if String.eqb p "cool" then ["cool:1"; "cool:2"] else [].

Definition inCooldown (store : unit) (id : string) (calls : nat) : bool :=
  String.eqb id "cool:1" || String.eqb id "cool:2".

(** The state counts the calls to [run].  Providers "a" and "b" are rate
    limited, "t" times out, "x" is cancelled by the user, "v" rejects the
    request as invalid, every other provider answers. *)
Definition scriptedRun (p m : string) (calls : nat)
  : ModelFallback.RunOutcome string * nat :=
  (if String.eqb p "a" || String.eqb p "b" then ModelFallback.RunThrow rateLimited
   else if String.eqb p "t" then ModelFallback.RunThrow timedOut
   else if String.eqb p "x" then ModelFallback.RunThrow cancelled
   else if String.eqb p "v" then ModelFallback.RunThrow (plainError "invalid request")
   else ModelFallback.RunOk ("answer from " +:+ p),
   S calls).

Definition fallbackWith (store : option unit)
    (candidates : list ModelFallback.ModelCandidate)
  : ModelFallback.FallbackResult string * nat * list ModelFallback.Event :=
  ModelFallback.runWithModelFallback isFailover isTimeout coerce describe
    profilesOf inCooldown store scriptedRun None candidates 0%nat.

Definition loopWith (store : option unit) (total i : nat)
    (candidates : list ModelFallback.ModelCandidate)
    (attempts : list ModelFallback.FallbackAttempt)
    (lastError : option ModelFallback.Thrown) (calls : nat)
    (log : list ModelFallback.Event)
  : ModelFallback.LoopOutcome string nat :=
  ModelFallback.fallbackLoop isFailover isTimeout coerce describe
    profilesOf inCooldown store scriptedRun None total i candidates attempts
    lastError calls log.

End Scenarios.

(** ** Command-line arguments *)

Module Cli.

(** [argv.indexOf(x)], with [None] for -1. *)
Fixpoint indexOf (x : string) (argv : list string) : option nat :=
  match argv with
  | [] => None
  | a :: rest => if String.eqb a x then Some 0%nat else S <$> indexOf x rest
  end.

(** rewriteUpdateFlagArgv: [splice(index, 1, "update")] on a copy. *)
Definition rewriteUpdateFlagArgv (argv : list string) : list string :=
  match indexOf "--update" argv with
  | None => argv
  | Some index => <[index := "update"]> argv
  end.

Section Windows.

(** [win32] is [process.platform === "win32"].  isExecPath is the local
    predicate of stripWindowsNodeExec, taken as given: it compares its
    normalized argument with process.execPath.  Its one file-system
    test, fs.existsSync, is guarded by [basename(lower) === "node.exe"],
    which the disjunct [lower.includes("node.exe")] before it already
    decides, so the predicate is a function of its argument. *)
Variable win32 : bool.
Variable isExecPath : string -> bool.

(** [argv.filter((arg, index) => index === 0 || !isExecPath(arg))] *)
Definition filterExecPaths (argv : list string) : list string :=
  match argv with
  | [] => []
  | first :: rest => first :: filter (fun arg => isExecPath arg = false) rest
  end.

(** [if (isExecPath(cleaned[i])) cleaned.splice(i, 1)] *)
Definition spliceIfExecPath (i : nat) (cleaned : list string) : list string :=
  match cleaned !! i with
  | Some arg => if isExecPath arg then delete i cleaned else cleaned
  | None => cleaned
  end.

Definition stripWindowsNodeExec (argv : list string) : list string :=
  if negb win32 then argv
  else
    let filtered := filterExecPaths argv in
    if (length filtered <? 3)%nat then filtered
    else spliceIfExecPath 2 (spliceIfExecPath 1 filtered).

(** The argument vector runCli hands to the command parser. *)
Definition parseArgvOf (argv : list string) : list string :=
  rewriteUpdateFlagArgv (stripWindowsNodeExec argv).

End Windows.

End Cli.

(** ** More session store operations *)

Module SessionStoreOps.
Import Js SessionStore.

Local Open Scope Z_scope.

Section Ops.

Variable ttl : Z.
Variable isCacheEnabled : Z -> bool.
Variable normalizeSessionDeliveryFields : gmap string JsVal -> DeliveryFields.
Variable pid : Z.
Variable deriveSessionMetaPatch :
  JsVal -> string -> JsVal -> JsVal -> option (gmap string JsVal).

(** [inherited name] is [Object.prototype[name]]: undefined for a name
    Object.prototype does not have, a function for "constructor",
    "toString" and the like. *)
Variable inherited : string -> JsVal.

(** [store[sessionKey]] on the parsed store: an own property, or else
    what the prototype gives. *)
Definition member (store : gmap string JsVal) (sessionKey : string) : JsVal :=
  match store !! sessionKey with
  | Some v => v
  | None => inherited sessionKey
  end.

(** readSessionUpdatedAt: [store[sessionKey]?.updatedAt]. *)
Definition readSessionUpdatedAt (storePath sessionKey : string) (w : World)
  : JsVal * World :=
  let '(store, w') := loadSessionStore ttl isCacheEnabled storePath false w in
  (prop (field store sessionKey) "updatedAt", w').

(** saveSessionStore: the save, under the lock. *)
Definition saveSessionStore (fuel : nat) (storePath : string)
    (store : gmap string JsVal) (w : World) : option (Outcome unit * World) :=
  withSessionStoreLock pid fuel storePath (fun w1 =>
    (Returned tt,
     saveSessionStoreUnlocked normalizeSessionDeliveryFields storePath store w1)) w.

(** The mutator recordSessionMetaFromInbound passes to updateSessionStore. *)
Definition recordMetaMutator (sessionKey : string) (ctx groupResolution : JsVal)
    (createIfMissing : bool) (store : gmap string JsVal)
  : JsVal * gmap string JsVal :=
  let existing := member store sessionKey in
  match deriveSessionMetaPatch ctx sessionKey existing groupResolution with
  | None => (nullish existing JNull, store)
  | Some patch =>
      if negb (truthy existing) && negb createIfMissing then (JNull, store)
      else
        let next := mergeSessionEntry existing patch in
        (JObj next, <[sessionKey := JObj next]> store)
  end.

Definition recordSessionMetaFromInbound (fuel : nat) (storePath sessionKey : string)
    (ctx groupResolution : JsVal) (createIfMissing : bool) (w : World)
  : option (Outcome JsVal * World) :=
  updateSessionStore ttl isCacheEnabled normalizeSessionDeliveryFields pid
    fuel storePath
    (recordMetaMutator sessionKey ctx groupResolution createIfMissing) w.

End Ops.

End SessionStoreOps.

(** ** Choosing the session key *)

Module SessionKeys.
Import Js SessionStore.

(** The options of resolveSessionKeyForRequest other than the config. *)
Record KeyOpts : Type := mkKeyOpts {
  ko_to : option string;
  ko_sessionId : option string;
  ko_sessionKey : option string;
  ko_agentId : option string
}.

Record SessionKeyResolution : Type := mkKeyResolution {
  kr_sessionKey : option string;
  kr_sessionStore : gmap string JsVal;
  kr_storePath : string
}.

(** [!!s] for an optional string. *)
Definition present (s : option string) : bool :=
  match s with
  | Some v => negb (String.eqb v "")
  | None => false
  end.

(** [a || b] on optional strings. *)
Definition orElse (a b : option string) : option string :=
  if present a then a else b.

Section Keys.

(** The configuration and the routing helpers live in other modules;
    [objectKeys] is Object.keys, which lists a store's keys in insertion
    order. *)
Variables Cfg MainKey AgentId : Type.
Variable sessionScope : Cfg -> option string.
Variable mainKeyOf : Cfg -> MainKey.
Variable resolveExplicitAgentSessionKey : Cfg -> option string -> option string.
Variable resolveAgentIdFromSessionKey : option string -> AgentId.
Variable resolveStorePath : Cfg -> AgentId -> string.
Variable resolveSessionKey : string -> string -> MainKey -> string.
Variable objectKeys : gmap string JsVal -> list string.
Variable ttl : Z.
Variable isCacheEnabled : Z -> bool.

(** [sessionStore[key]?.sessionId === id] *)
Definition entryHasId (store : gmap string JsVal) (id key : string) : bool :=
  strictEq (prop (field store key) "sessionId") (JStr id).

Definition resolveSessionKeyForRequest (cfg : Cfg) (opts : KeyOpts) (w : World)
  : SessionKeyResolution * World :=
  let scope := default "per-sender" (sessionScope cfg) in
  let mainKey := mainKeyOf cfg in
  let explicitSessionKey :=
    orElse (trim <$> ko_sessionKey opts)
           (resolveExplicitAgentSessionKey cfg (ko_agentId opts)) in
  let storeAgentId := resolveAgentIdFromSessionKey explicitSessionKey in
  let storePath := resolveStorePath cfg storeAgentId in
  let '(sessionStore, w') := loadSessionStore ttl isCacheEnabled storePath false w in
  let derived :=
    match explicitSessionKey with
    | Some k => Some k
    | None =>
        if present (trim <$> ko_to opts)
        then Some (resolveSessionKey scope (default "" (ko_to opts)) mainKey)
        else None
    end in
  let sessionKey :=
    if negb (present explicitSessionKey) && present (ko_sessionId opts)
       && (negb (present derived)
           || negb (entryHasId sessionStore (default "" (ko_sessionId opts))
                      (default "" derived)))
    then
      match List.find (entryHasId sessionStore (default "" (ko_sessionId opts)))
                      (objectKeys sessionStore) with
      | Some foundKey => if String.eqb foundKey "" then derived else Some foundKey
      | None => derived
      end
    else derived in
  (mkKeyResolution sessionKey sessionStore storePath, w').

End Keys.

End SessionKeys.

(** ** The agent command of the CLI *)

Module AgentCli.

Inductive CliEvent : Type :=
| EvGateway
| EvEmbedded
| EvReport (message : string).

Section Command.

(** [R] is a command result, [E] a thrown value, [St] the state the
    commands act on.  [stringOf] is String(err), which runs the error's
    own toString and may throw; [runtimeError] is runtime.error, which
    may be absent and may throw. *)
Context {R E St : Type}.
Variable stringOf : E -> string + E.
Variable agentViaGatewayCommand : St -> (R + E) * St.
Variable agentCommand : St -> (R + E) * St.
Variable runtimeError : option (string -> St -> option E * St).

(** agentCliCommand, with [local] for [opts.local === true]: the result,
    the final state and the calls made.  The argument of
    [runtime.error?.(...)] is evaluated only when runtime.error is
    there. *)
Definition agentCliCommand (local : bool) (st : St)
  : (R + E) * St * list CliEvent :=
  if local
  then let '(r, st1) := agentCommand st in (r, st1, [EvEmbedded])
  else
    let '(g, st1) := agentViaGatewayCommand st in
    match g with
    | inl result => (inl result, st1, [EvGateway])
    | inr err =>
        match runtimeError with
        | None =>
            let '(r, st2) := agentCommand st1 in (r, st2, [EvGateway; EvEmbedded])
        | Some report =>
            match stringOf err with
            | inr thrown => (inr thrown, st1, [EvGateway])
            | inl text =>
                let message :=
                  "Gateway agent failed; falling back to embedded: " +:+ text in
                match report message st1 with
                | (Some thrown, st2) =>
                    (inr thrown, st2, [EvGateway; EvReport message])
                | (None, st2) =>
                    let '(r, st3) := agentCommand st2 in
                    (r, st3, [EvGateway; EvReport message; EvEmbedded])
                end
            end
        end
    end.

End Command.

End AgentCli.

(** ** Resolving the fallback candidates *)

Module Candidates.
Import Js ModelFallback.

(** The closure state of addCandidate: the [seen] set and the list built. *)
Record Collected : Type := mkCollected {
  seen : gset string;
  collected : list ModelCandidate
}.

(** What the candidate resolvers read from the configuration:
    [configured] is resolveConfiguredModelRef(cfg) when a config is
    given, [allowlistKeys] is Object.keys(cfg.agents.defaults.models),
    [modelFallbacks] is cfg.agents.defaults.model.fallbacks,
    [imagePrimary] and [imageFallbacks] are the parts of
    cfg.agents.defaults.imageModel. *)
Record ModelConfig : Type := mkModelConfig {
  configured : option ModelCandidate;
  allowlistKeys : list string;
  modelFallbacks : list string;
  imagePrimary : option string;
  imageFallbacks : list string
}.

Section Resolve.

(** Constants and helpers of the model-selection module. *)
Variable DEFAULT_PROVIDER : string.
Variable DEFAULT_MODEL : string.
Variable modelKey : string -> string -> string.
Variable parseModelRef : string -> string -> option ModelCandidate.
Variable resolveModelRefFromString : string -> string -> option ModelCandidate.

Definition keyOf (c : ModelCandidate) : string := modelKey (provider c) (model c).

Definition buildAllowedModelKeys (cfg : ModelConfig) (defaultProvider : string)
  : option (gset string) :=
  match allowlistKeys cfg with
  | [] => None
  | rawAllowlist =>
      let keys :=
        foldl (fun (keys : gset string) raw =>
                 match parseModelRef raw defaultProvider with
                 | Some parsed => keys ∪ {[ keyOf parsed ]}
                 | None => keys
                 end) ∅ rawAllowlist in
      if decide (keys = ∅) then None else Some keys
  end.

Definition addCandidate (allowlist : option (gset string)) (acc : Collected)
    (candidate : ModelCandidate) (enforceAllowlist : bool) : Collected :=
  if String.eqb (provider candidate) "" || String.eqb (model candidate) "" then acc
  else if bool_decide (keyOf candidate ∈ seen acc) then acc
  else if enforceAllowlist
          && match allowlist with
             | Some allowed => negb (bool_decide (keyOf candidate ∈ allowed))
             | None => false
             end
  then acc
  else mkCollected (seen acc ∪ {[ keyOf candidate ]}) (collected acc ++ [candidate]).

(** addRaw, and the body of the loop over the configured fallbacks. *)
Definition addRaw (allowlist : option (gset string)) (defaultProvider : string)
    (acc : Collected) (raw : string) (enforceAllowlist : bool) : Collected :=
  match resolveModelRefFromString raw defaultProvider with
  | Some ref => addCandidate allowlist acc ref enforceAllowlist
  | None => acc
  end.

(** [String(value ?? "").trim() || fallback] *)
Definition trimmedOr (value fallback : string) : string :=
  if String.eqb (trim value) "" then fallback else trim value.

(** The candidate the caller asked for, after defaulting. *)
Definition requestedCandidate (cfg : ModelConfig) (requestedProvider requestedModel : string)
  : ModelCandidate :=
  let defaultProvider := default DEFAULT_PROVIDER (provider <$> configured cfg) in
  let defaultModel := default DEFAULT_MODEL (model <$> configured cfg) in
  mkCandidate (trimmedOr requestedProvider defaultProvider)
              (trimmedOr requestedModel defaultModel).

Definition resolveFallbackCandidates (cfg : ModelConfig)
    (requestedProvider requestedModel : string)
    (fallbacksOverride : option (list string)) : list ModelCandidate :=
  let defaultProvider := default DEFAULT_PROVIDER (provider <$> configured cfg) in
  let allowlist := buildAllowedModelKeys cfg defaultProvider in
  let acc0 :=
    addCandidate allowlist (mkCollected ∅ [])
      (requestedCandidate cfg requestedProvider requestedModel) false in
  let fallbacks := default (modelFallbacks cfg) fallbacksOverride in
  let acc1 :=
    foldl (fun acc raw => addRaw allowlist defaultProvider acc raw true) acc0 fallbacks in
  let acc2 :=
    match fallbacksOverride, configured cfg with
    | None, Some primary => addCandidate allowlist acc1 primary false
    | _, _ => acc1
    end in
  collected acc2.

Definition resolveImageFallbackCandidates (cfg : ModelConfig)
    (defaultProvider : string) (modelOverride : option string)
  : list ModelCandidate :=
  let allowlist := buildAllowedModelKeys cfg defaultProvider in
  let start := mkCollected ∅ [] in
  let acc0 :=
    match modelOverride with
    | Some raw =>
        if String.eqb (trim raw) ""
        then match imagePrimary cfg with
             | Some primary =>
                 if String.eqb (trim primary) "" then start
                 else addRaw allowlist defaultProvider start primary false
             | None => start
             end
        else addRaw allowlist defaultProvider start raw false
    | None =>
        match imagePrimary cfg with
        | Some primary =>
            if String.eqb (trim primary) "" then start
            else addRaw allowlist defaultProvider start primary false
        | None => start
        end
    end in
  collected
    (foldl (fun acc raw => addRaw allowlist defaultProvider acc raw true)
           acc0 (imageFallbacks cfg)).

End Resolve.

End Candidates.

(** ** The image-model fallback *)

Module ImageFallback.
Import Js ModelFallback.

Definition noImageModelMessage : string :=
  "No image model configured. Set agents.defaults.imageModel.primary or agents.defaults.imageModel.fallbacks.".

Definition imageAttemptLine (a : FallbackAttempt) : string :=
  a_provider a +:+ "/" +:+ a_model a +:+ ": " +:+ a_error a.

Definition imageAggregate (attempts : list FallbackAttempt)
    (lastError : option Thrown) (candidateCount : nat) : Thrown :=
  let n := match length attempts with O => candidateCount | k => k end in
  ErrorObject true (Some "Error")
    ("All image models failed (" +:+ showNat n +:+ "): " +:+
     match attempts with
     | [] => "unknown"
     | _ => join " | " (imageAttemptLine <$> attempts)
     end)
    (match lastError with
     | Some e => if instanceofError e then Some e else None
     | None => None
     end).

Definition imageExhaustion (attempts : list FallbackAttempt)
    (lastError : option Thrown) (candidateCount : nat) : Thrown :=
  match lastError with
  | Some e =>
      if (length attempts <=? 1)%nat && thrownTruthy e then e
      else imageAggregate attempts lastError candidateCount
  | None => imageAggregate attempts lastError candidateCount
  end.

Section Image.

Context {T St : Type}.
Variable isFailoverError : Thrown -> bool.
Variable isTimeoutError : Thrown -> bool.
Variable stringOf : Thrown -> string.
Variable run : string -> string -> St -> RunOutcome T * St.
Variable onError : option (ErrorNotice -> St -> option Thrown * St).

(** [err instanceof Error ? err.message : String(err)] *)
Definition errorText (err : Thrown) : string :=
  match err with
  | ErrorObject true _ message _ => message
  | _ => stringOf err
  end.

Definition imageAttempt (c : ModelCandidate) (err : Thrown) : FallbackAttempt :=
  mkAttempt (provider c) (model c) (errorText err) None None None.

Fixpoint imageLoop (total i : nat) (candidates : list ModelCandidate)
    (attempts : list FallbackAttempt) (lastError : option Thrown)
    (st : St) (log : list Event) : LoopOutcome T St :=
  match candidates with
  | [] => Exhausted attempts lastError st log
  | c :: rest =>
      let '(out, st1) := run (provider c) (model c) st in
      let log1 := log ++ [EvRun c] in
      match out with
      | RunOk result => Finished result c attempts st1 log1
      | RunThrow err =>
          if shouldRethrowAbort isFailoverError isTimeoutError err
          then Rethrown err attempts st1 log1
          else
            let attempts1 := attempts ++ [imageAttempt c err] in
            let n := mkNotice (provider c) (model c) err (i + 1) total in
            let '(thrown, st2) := notify onError n st1 in
            let log2 := log1 ++ notifyLog onError n in
            match thrown with
            | Some e => Rethrown e attempts1 st2 log2
            | None => imageLoop total (S i) rest attempts1 (Some err) st2 log2
            end
      end
  end.

(** runWithImageModelFallback on the resolved candidate list. *)
Definition runWithImageModelFallback (candidates : list ModelCandidate) (st : St)
  : FallbackResult T * St * list Event :=
  match candidates with
  | [] => (Failure (ErrorObject true (Some "Error") noImageModelMessage None), st, [])
  | _ =>
      match imageLoop (length candidates) 0 candidates [] None st [] with
      | Finished result c attempts st' log =>
          (Success result (provider c) (model c) attempts, st', log)
      | Rethrown thrown _ st' log => (Failure thrown, st', log)
      | Exhausted attempts lastError st' log =>
          (Failure (imageExhaustion attempts lastError (length candidates)), st', log)
      end
  end.

End Image.

End ImageFallback.

(** ** The gateway target and credentials *)

Module GatewayTarget.
Import Js.

Local Open Scope Z_scope.

(** The parts of the configuration callGateway reads.  A field is
    [None] when it is absent or not a string. *)
Record GatewayConfig : Type := mkGatewayConfig {
  gc_mode : option string;
  gc_remoteUrl : option string;
  gc_remoteToken : option string;
  gc_remotePassword : option string;
  gc_tlsEnabled : bool;
  gc_bind : option string;
  gc_authToken : option string;
  gc_authPassword : option string
}.

Record GatewayConnectionDetails : Type := mkDetails {
  gd_url : string;
  gd_urlSource : string;
  gd_bindDetail : option string;
  gd_remoteFallbackNote : option string;
  gd_message : string
}.

(** [typeof v === "string" && v.trim().length > 0 ? v.trim() : undefined] *)
Definition nonBlank (v : option string) : option string :=
  match v with
  | Some s => if String.eqb (trim s) "" then None else Some (trim s)
  | None => None
  end.

(** [a || b] where a present string is not empty. *)
Definition firstOf (a b : option string) : option string :=
  match a with
  | Some s => if String.eqb s "" then b else a
  | None => b
  end.

Definition isSomeB (o : option string) : bool :=
  match o with Some _ => true | None => false end.

Definition newline : string := String (ascii_of_nat 10) EmptyString.

Fixpoint keepPresent (parts : list (option string)) : list string :=
  match parts with
  | [] => []
  | Some s :: rest => if String.eqb s "" then keepPresent rest else s :: keepPresent rest
  | None :: rest => keepPresent rest
  end.

Section Target.

(** resolveGatewayPort(config), pickPrimaryTailnetIPv4(), the resolved
    config path and the two environment variables. *)
Variable localPort : Z.
Variable tailnetIPv4 : option string.
Variable configPath : string.
Variable envToken : option string.
Variable envPassword : option string.

Definition isRemoteMode (config : GatewayConfig) : bool :=
  match gc_mode config with
  | Some m => String.eqb m "remote"
  | None => false
  end.

(** [remote?.field] with [remote] defined in remote mode only. *)
Definition remoteField (config : GatewayConfig) (f : GatewayConfig -> option string)
  : option string :=
  if isRemoteMode config then f config else None.

Definition tailnetPresent : bool :=
  match tailnetIPv4 with
  | Some ip => negb (String.eqb ip "")
  | None => false
  end.

Definition buildGatewayConnectionDetails (config : GatewayConfig) (url : option string)
  : GatewayConnectionDetails :=
  let bindMode := default "loopback" (gc_bind config) in
  let preferTailnet := String.eqb bindMode "tailnet" && tailnetPresent in
  let scheme := if gc_tlsEnabled config then "wss" else "ws" in
  let localUrl :=
    if preferTailnet
    then scheme +:+ "://" +:+ default "" tailnetIPv4 +:+ ":" +:+ showZ localPort
    else scheme +:+ "://127.0.0.1:" +:+ showZ localPort in
  let urlOverride := nonBlank url in
  let remoteUrl := nonBlank (remoteField config gc_remoteUrl) in
  let remoteMisconfigured :=
    isRemoteMode config && negb (isSomeB urlOverride) && negb (isSomeB remoteUrl) in
  let target := default localUrl (firstOf urlOverride remoteUrl) in
  let urlSource :=
    match urlOverride, remoteUrl with
    | Some _, _ => "cli --url"
    | None, Some _ => "config gateway.remote.url"
    | None, None =>
        if remoteMisconfigured then "missing gateway.remote.url (fallback local)"
        else if preferTailnet then "local tailnet " +:+ default "" tailnetIPv4
        else "local loopback"
    end in
  let remoteFallbackNote :=
    if remoteMisconfigured
    then Some "Warn: gateway.mode=remote but gateway.remote.url is missing; set gateway.remote.url or switch gateway.mode=local."
    else None in
  let bindDetail :=
    match urlOverride, remoteUrl with
    | None, None => Some ("Bind: " +:+ bindMode)
    | _, _ => None
    end in
  let message :=
    join newline
      (keepPresent [Some ("Gateway target: " +:+ target);
                    Some ("Source: " +:+ urlSource);
                    Some ("Config: " +:+ configPath);
                    bindDetail; remoteFallbackNote]) in
  mkDetails target urlSource bindDetail remoteFallbackNote message.

(** The check callGateway makes before it connects. *)
Definition remoteMisconfigured (config : GatewayConfig) (url : option string) : bool :=
  isRemoteMode config
  && negb (isSomeB (nonBlank url))
  && negb (isSomeB (nonBlank (remoteField config gc_remoteUrl))).

Definition misconfiguredMessage : string :=
  join newline
    ["gateway remote mode misconfigured: gateway.remote.url missing";
     "Config: " +:+ configPath;
     "Fix: set gateway.remote.url, or set gateway.mode=local."].

(** The [token] and [password] callGateway hands to the client. *)
Definition gatewayToken (config : GatewayConfig) (optsToken : option string)
  : option string :=
  firstOf (nonBlank optsToken)
    (if isRemoteMode config
     then nonBlank (remoteField config gc_remoteToken)
     else firstOf (trim <$> envToken) (nonBlank (gc_authToken config))).

Definition gatewayPassword (config : GatewayConfig) (optsPassword : option string)
  : option string :=
  firstOf (nonBlank optsPassword)
    (firstOf (trim <$> envPassword)
       (if isRemoteMode config
        then nonBlank (remoteField config gc_remotePassword)
        else nonBlank (gc_authPassword config))).

(** callGateway up to the connection: the config error, or the URL and
    credentials of the client it creates. *)
Definition callTarget (config : GatewayConfig) (url optsToken optsPassword : option string)
  : string + (string * option string * option string) :=
  if remoteMisconfigured config url then inl misconfiguredMessage
  else
    inr (gd_url (buildGatewayConnectionDetails config (nonBlank url)),
         gatewayToken config optsToken,
         gatewayPassword config optsPassword).

End Target.

End GatewayTarget.

(** ** More worlds and collaborators used to exercise the model *)

Module MoreScenarios.
Import Js Scenarios.

Local Open Scope Z_scope.

(** *** Session store *)

(** An entry that carries both the legacy and the current room name. *)
Definition pairedRoomWorld : SessionStore.World :=
  SessionStore.mkWorld
    {[ storePath :=
         fileOf {[ "r" := JObj {[ "groupChannel" := JStr "#new";
                                  "room" := JStr "#general" ]} ]} 500 ]}
    ∅ 1010 [].

(** This process cached the store at time 500, when entry "a" was
    stamped 100; another process then stamped it [x] within the same
    millisecond, so the file's mtime still equals the cached one. *)
Definition staleStampWorld (x : Z) : SessionStore.World :=
  SessionStore.mkWorld
    {[ storePath :=
         fileOf {[ "a" := JObj {[ "sessionId" := JStr "s-a"; "updatedAt" := JNum x ]} ]}
                500 ]}
    {[ storePath := SessionStore.mkCacheEntry {[ "a" := entryA ]} 500 (Some 500) ]}
    1010 [].

(** The store file cannot be parsed. *)
Definition brokenWorld : SessionStore.World :=
  SessionStore.mkWorld
    {[ storePath := SessionStore.mkFile SessionStore.Corrupt 500 ]} ∅ 1010 [].

(** Another process took the lock ten milliseconds ago and keeps it. *)
Definition heldLockWorld : SessionStore.World :=
  SessionStore.mkWorld
    {[ storePath := fileOf {[ "a" := entryA ]} 500;
       SessionStore.lockPathOf storePath :=
         fileOf {[ "pid" := JNum 99; "startedAt" := JNum 1000 ]} 1000 ]}
    ∅ 1010 [].

(** The holder of the lock died long ago. *)
Definition staleLockWorld : SessionStore.World :=
  SessionStore.mkWorld
    {[ storePath := fileOf {[ "a" := entryA ]} 500;
       SessionStore.lockPathOf storePath :=
         fileOf {[ "pid" := JNum 99; "startedAt" := JNum 1000 ]} 1000 ]}
    ∅ 100000 [].

(** A body that fails. *)
Definition failingBody (w : SessionStore.World)
  : SessionStore.Outcome unit * SessionStore.World :=
  (SessionStore.Threw "disk full", w).

(** Two mutators: the first adds entry "b", the second reports whether
    it sees it. *)
Definition addB (store : gmap string JsVal) : unit * gmap string JsVal :=
  (tt, <["b" := entryB]> store).

Definition seesB (store : gmap string JsVal) : bool * gmap string JsVal :=
  (truthy (field store "b"), store).

(** *** Session keys *)

Definition scopeOf (cfg : unit) : option string := None.

Definition mainKeyOf (cfg : unit) : unit := tt.

Definition explicitKeyOf (cfg : unit) (agentId : option string) : option string := None.

Definition agentIdOf (key : option string) : unit := tt.

Definition storePathOf (cfg : unit) (agentId : unit) : string := storePath.

Definition keyOfSender (scope to : string) (mainKey : unit) : string :=
  scope +:+ ":" +:+ to.

Definition keysOf (store : gmap string JsVal) : list string :=
  (map_to_list store).*1.

(** A request from a sender, naming the session id of entry "a". *)
Definition byIdOpts : SessionKeys.KeyOpts :=
  SessionKeys.mkKeyOpts (Some "+15551234567") (Some "s-a") None None.

(** *** Model fallback *)

(** Provider "cool" has two profiles, both cooling down; provider "warm"
    has two, of which the second is available. *)
Definition mixedProfilesOf (store : unit) (p : string) : list string :=
  if String.eqb p "cool" then ["cool:1"; "cool:2"]
  else if String.eqb p "warm" then ["warm:1"; "warm:2"]
  else [].

Definition mixedCooldown (store : unit) (id : string) (calls : nat) : bool :=
  negb (String.eqb id "warm:2").

(** An observer that fails on every notice; the state counts calls. *)
Definition brokenObserver (n : ModelFallback.ErrorNotice) (calls : nat)
  : option ModelFallback.Thrown * nat :=
  (Some (plainError "observer failed"), calls).

Definition messageOf (e : ModelFallback.Thrown) : string :=
  match e with
  | ModelFallback.ErrorObject _ _ m _ => m
  | ModelFallback.Primitive _ => "primitive"
  end.

(** *** Candidates *)

Definition keyOfModel (p m : string) : string := p +:+ "/" +:+ m.

(** References are written provider:model here; a bare name takes the
    default provider. *)
Fixpoint splitRef (raw acc : string) : option (string * string) :=
  match raw with
  | EmptyString => None
  | String a rest =>
      if Ascii.eqb a ":"%char then Some (revOnto acc "", rest)
      else splitRef rest (String a acc)
  end.

Definition refOf (raw defaultProvider : string) : option ModelFallback.ModelCandidate :=
  if String.eqb (trim raw) "" then None
  else
    match splitRef (trim raw) "" with
    | Some (p, m) => Some (ModelFallback.mkCandidate p m)
    | None => Some (ModelFallback.mkCandidate defaultProvider (trim raw))
    end.

(** Primary anthropic:opus, an allowlist of two models, three
    configured fallbacks of which one is not on the allowlist. *)
Definition modelConfig : Candidates.ModelConfig :=
  Candidates.mkModelConfig
    (Some (ModelFallback.mkCandidate "anthropic" "opus"))
    ["anthropic:opus"; "openai:gpt"]
    ["openai:gpt"; "mistral:large"; "openai:gpt"]
    None [].

(** *** Gateway *)

Definition remoteConfig : GatewayTarget.GatewayConfig :=
  GatewayTarget.mkGatewayConfig (Some "remote") (Some "wss://gw.example:443")
    (Some "remote-token") (Some "remote-password") false None
    (Some "local-token") (Some "local-password").

(** A local gateway bound to the tailnet, with TLS. *)
Definition tailnetConfig : GatewayTarget.GatewayConfig :=
  GatewayTarget.mkGatewayConfig None None None None true (Some "tailnet") None None.

(** *** The agent command *)

(** The gateway is down and the embedded command fails too.  The state
    collects the reports. *)
Definition gatewayDown (reports : list string) : (string + string) * list string :=
  (inr "ECONNREFUSED", reports).

Definition brokenEmbedded (reports : list string) : (string + string) * list string :=
  (inr "no model configured", reports).

Definition textOf (err : string) : string + string := inl err.

Definition report (message : string) (reports : list string)
  : option string * list string :=
  (None, reports ++ [message]).

(** A metadata derivation that always has a patch. *)
Definition thinkHighPatch (ctx : JsVal) (key : string) (existing groupResolution : JsVal)
  : option (gmap string JsVal) := Some {[ "thinkingLevel" := JStr "high" ]}.

(** A store object's prototype, as far as the scenarios need it: the
    name "constructor" is inherited, as some object. *)
Definition prototypeOf (name : string) : JsVal :=
  if String.eqb name "constructor" then JObj ∅ else JUndefined.

End MoreScenarios.

(** * Properties *)

(** ** Session store *)

Module StoreFacts.
Import Js SessionStore.

Local Open Scope Z_scope.

Lemma lockPathOf_ne (p : string) : lockPathOf p ≠ p.
Proof.
  unfold lockPathOf. induction p as [|a p IH]; simpl.
  - discriminate.
  - intros H. injection H as H. by apply IH.
Qed.

(** *** The migrations, key by key *)

Lemma migrateProvider_other (rec : gmap string JsVal) (k : string) :
  k ≠ "channel" -> k ≠ "provider" -> migrateProvider rec !! k = rec !! k.
Proof.
  intros Hc Hp. unfold migrateProvider.
  case_match; [|done].
  rewrite lookup_delete_ne by done. by rewrite lookup_insert_ne.
Qed.

Lemma migrateLastProvider_other (rec : gmap string JsVal) (k : string) :
  k ≠ "lastChannel" -> k ≠ "lastProvider" -> migrateLastProvider rec !! k = rec !! k.
Proof.
  intros Hc Hp. unfold migrateLastProvider.
  case_match; [|done].
  rewrite lookup_delete_ne by done. by rewrite lookup_insert_ne.
Qed.

Lemma migrateRoom_other (rec : gmap string JsVal) (k : string) :
  k ≠ "groupChannel" -> k ≠ "room" -> migrateRoom rec !! k = rec !! k.
Proof.
  intros Hc Hp. unfold migrateRoom.
  repeat case_match; try done.
  - rewrite lookup_delete_ne by done. by rewrite lookup_insert_ne.
  - by rewrite lookup_delete_ne.
Qed.

Lemma migrateRoom_no_room (rec : gmap string JsVal) :
  migrateRoom rec !! "room" = None.
Proof.
  unfold migrateRoom. repeat case_match.
  - apply lookup_delete_eq.
  - apply lookup_delete_eq.
  - match goal with H : bool_decide _ = false |- _ =>
      apply bool_decide_eq_false in H end.
    by apply eq_None_not_Some.
Qed.

Lemma migrateProvider_pruned (rec : gmap string JsVal) :
  isString (field (migrateProvider rec) "provider") = true ->
  isString (field (migrateProvider rec) "channel") = true.
Proof.
  unfold migrateProvider.
  destruct (isString (field rec "channel")) eqn:Hc;
    destruct (isString (field rec "provider")) eqn:Hp; simpl; try congruence.
  unfold field. rewrite lookup_delete_eq. simpl. discriminate.
Qed.

Lemma migrateProvider_moves (rec : gmap string JsVal) :
  isString (field rec "provider") = true ->
  isString (field rec "channel") = false ->
  field (migrateProvider rec) "channel" = field rec "provider" /\
  migrateProvider rec !! "provider" = None.
Proof.
  intros Hp Hc. unfold migrateProvider. rewrite Hp, Hc. simpl. split.
  - unfold field at 1. rewrite lookup_delete_ne by done.
    by rewrite lookup_insert_eq.
  - apply lookup_delete_eq.
Qed.

Lemma migrateRoom_moves (rec : gmap string JsVal) :
  isString (field rec "room") = true ->
  isString (field rec "groupChannel") = false ->
  field (migrateRoom rec) "groupChannel" = field rec "room".
Proof.
  intros Hr Hg. unfold migrateRoom. rewrite Hr, Hg. simpl.
  unfold field at 1. rewrite lookup_delete_ne by done.
  by rewrite lookup_insert_eq.
Qed.

Lemma field_eq (r1 r2 : gmap string JsVal) (k : string) :
  r1 !! k = r2 !! k -> field r1 k = field r2 k.
Proof. unfold field. by intros ->. Qed.

Lemma migrateEntry_migrated (rec0 : gmap string JsVal) :
  migratedRecord (migrateRoom (migrateLastProvider (migrateProvider rec0))).
Proof.
  split.
  - apply migrateRoom_no_room.
  - rewrite (field_eq _ (migrateProvider rec0) "provider"),
            (field_eq _ (migrateProvider rec0) "channel").
    + apply migrateProvider_pruned.
    + rewrite migrateRoom_other by done. by rewrite migrateLastProvider_other.
    + rewrite migrateRoom_other by done. by rewrite migrateLastProvider_other.
Qed.

Lemma migrated_fmap (m : gmap string JsVal) : migratedStore (migrateEntry <$> m).
Proof.
  intros k rec Hk. rewrite lookup_fmap in Hk.
  destruct (m !! k) as [v|] eqn:Hv; simpl in Hk; [|done].
  destruct v; simpl in Hk; try done.
  injection Hk as <-. apply migrateEntry_migrated.
Qed.

Section WithCollaborators.

Variable ttl : Z.
Variable isCacheEnabled : Z -> bool.
Variable normalizeSessionDeliveryFields : gmap string JsVal -> DeliveryFields.
Variable pid : Z.

Local Abbreviation load := (loadSessionStore ttl isCacheEnabled).
Local Abbreviation fromDisk := (loadFromDisk ttl isCacheEnabled).
Local Abbreviation save := (saveSessionStoreUnlocked normalizeSessionDeliveryFields).

(** *** Loading *)

Lemma fromDisk_store (p : string) (sc : bool) (w : World) :
  (fromDisk p sc w).1 = migrateEntry <$> readStoreFile w p.
Proof. unfold loadFromDisk. by case_match. Qed.

Lemma fromDisk_frame (p : string) (sc : bool) (w : World) :
  files (fromDisk p sc w).2 = files w /\
  clock (fromDisk p sc w).2 = clock w /\
  writes (fromDisk p sc w).2 = writes w.
Proof. unfold loadFromDisk. by case_match. Qed.

Lemma load_skipCache (p : string) (w : World) :
  load p true w = (migrateEntry <$> readStoreFile w p, w).
Proof. reflexivity. Qed.

Lemma load_miss (p : string) (sc : bool) (w : World) :
  sc = true \/ cache w !! p = None -> load p sc w = fromDisk p sc w.
Proof.
  intros [-> | Hc]; [done|].
  unfold loadSessionStore. rewrite Hc. by case_match.
Qed.

(** A cache hit: the snapshot is returned and the file is not read. *)
Lemma load_hit (p : string) (cached : CacheEntry) (w : World) :
  isCacheEnabled ttl = true ->
  cache w !! p = Some cached ->
  clock w - ce_loadedAt cached <= ttl ->
  getFileMtimeMs w p = ce_mtimeMs cached ->
  load p false w = (ce_store cached, w).
Proof.
  intros Hon Hc Hfresh Hm. unfold loadSessionStore, isSessionStoreCacheEnabled.
  rewrite Hon, Hc. simpl. unfold isSessionStoreCacheValid.
  rewrite (proj2 (Z.leb_le _ _) Hfresh). by rewrite bool_decide_eq_true_2.
Qed.

Lemma load_frame (p : string) (sc : bool) (w : World) :
  files (load p sc w).2 = files w /\
  clock (load p sc w).2 = clock w /\
  writes (load p sc w).2 = writes w.
Proof.
  unfold loadSessionStore.
  repeat case_match; try done; try apply fromDisk_frame.
  destruct (fromDisk_frame p sc (invalidateSessionStoreCache p w)) as (-> & -> & ->).
  done.
Qed.

Lemma fromDisk_migrated (p : string) (sc : bool) (w : World) :
  cacheMigrated w ->
  migratedStore (fromDisk p sc w).1 /\ cacheMigrated (fromDisk p sc w).2.
Proof.
  intros Hw. split.
  - rewrite fromDisk_store. apply migrated_fmap.
  - unfold loadFromDisk. case_match; [|done]. simpl.
    intros q entry Hq. simpl in Hq.
    destruct (decide (p = q)) as [<-|Hne].
    + rewrite lookup_insert_eq in Hq. injection Hq as <-. simpl.
      apply migrated_fmap.
    + rewrite lookup_insert_ne in Hq by done. by eapply Hw.
Qed.

Lemma invalidate_migrated (p : string) (w : World) :
  cacheMigrated w -> cacheMigrated (invalidateSessionStoreCache p w).
Proof.
  intros Hw q entry Hq. simpl in Hq.
  apply lookup_delete_Some in Hq as [_ Hq]. by eapply Hw.
Qed.

Lemma load_migrated (p : string) (sc : bool) (w : World) :
  cacheMigrated w ->
  migratedStore (load p sc w).1 /\ cacheMigrated (load p sc w).2.
Proof.
  intros Hw. unfold loadSessionStore.
  repeat case_match; try (by apply fromDisk_migrated).
  - simpl. split; [|done]. by eapply Hw.
  - apply fromDisk_migrated. by apply invalidate_migrated.
Qed.

Lemma save_migrated (p : string) (store : gmap string JsVal) (w : World) :
  cacheMigrated w -> cacheMigrated (save p store w).
Proof.
  intros Hw q entry Hq. simpl in Hq.
  apply lookup_delete_Some in Hq as [_ Hq]. by eapply Hw.
Qed.

(** A file at another path does not change what is loaded. *)
Lemma readStoreFile_other (p q : string) (f : FileNode) (w : World) :
  q ≠ p ->
  readStoreFile (withFiles (<[q := f]> (files w)) w) p = readStoreFile w p.
Proof. intros Hne. unfold readStoreFile. simpl. by rewrite lookup_insert_ne. Qed.


(** *** The lock, when the sidecar is absent *)

Lemma acquireLock_free (fuel : nat) (lockPath : string) (startedAt : Z) (w : World) :
  files w !! lockPath = None ->
  acquireLock pid (S fuel) lockPath startedAt w =
    Some (Returned tt, withFiles (<[lockPath := lockFile pid w]> (files w)) w).
Proof. intros H. simpl. by rewrite H. Qed.


(** The acquisition loop ends: with fuel for every sleep that fits in
    the timeout, it acquires the lock or reports the timeout. *)
Lemma acquireLock_terminates (lockPath : string) (startedAt : Z) (n : nat) :
  forall w : World,
    (Z.to_nat (timeoutMs + 1 - (clock w - startedAt)) <= n)%nat ->
    exists r, acquireLock pid (S (S n)) lockPath startedAt w = Some r.
Proof.
  induction n as [|n IH]; intros w Hn.
  - cbn [acquireLock]. destruct (files w !! lockPath) as [st|]; [|eauto].
    destruct (timeoutMs <? clock w - startedAt) eqn:Ht; [eauto|].
    apply Z.ltb_ge in Ht. lia.
  - cbn [acquireLock]. destruct (files w !! lockPath) as [st|] eqn:Hl; [|eauto].
    destruct (timeoutMs <? clock w - startedAt) eqn:Ht; [eauto|].
    apply Z.ltb_ge in Ht.
    destruct (staleMs <? clock w - mtimeMs st).
    + simpl. rewrite lookup_delete_eq. eauto.
    + change (match files (withClock (clock w + pollIntervalMs) w) !! lockPath with
              | Some st0 => _ | None => _ end)
        with (acquireLock pid (S (S n)) lockPath startedAt
                (withClock (clock w + pollIntervalMs) w)).
      apply IH. simpl. unfold pollIntervalMs. lia.
Qed.


(** *** Migration on load *)

(** Every store returned by loadSessionStore holds only
    migrated entries: none carries [room], and a string [provider] is
    left only beside a string [channel].  When the load reads the disk,
    an entry with a string [provider] and no string [channel] comes back
    with [channel] set to it and [provider] removed, and an entry with a
    string [room] and no string [groupChannel] comes back with
    [groupChannel] set to it and [room] removed. *)
Theorem loadSessionStore_migrates (p : string) (skipCache : bool) (w : World) :
  cacheMigrated w ->
  (forall k rec, (load p skipCache w).1 !! k = Some (JObj rec) ->
     rec !! "room" = None /\
     (isString (field rec "provider") = true ->
      isString (field rec "channel") = true)) /\
  (skipCache = true \/ cache w !! p = None ->
   forall k rec0, readStoreFile w p !! k = Some (JObj rec0) ->
     exists rec, (load p skipCache w).1 !! k = Some (JObj rec) /\
       (isString (field rec0 "provider") = true ->
        isString (field rec0 "channel") = false ->
        field rec "channel" = field rec0 "provider" /\ rec !! "provider" = None) /\
       (isString (field rec0 "room") = true ->
        isString (field rec0 "groupChannel") = false ->
        field rec "groupChannel" = field rec0 "room" /\ rec !! "room" = None)) /\
  cacheMigrated (load p skipCache w).2.
Proof.
  intros Hw. destruct (load_migrated p skipCache w Hw) as [Hstore Hcache].
  split; [|split; [|done]].
  - intros k rec Hk. exact (Hstore k rec Hk).
  - intros Hmiss k rec0 Hk. rewrite (load_miss p skipCache w Hmiss), fromDisk_store.
    exists (migrateRoom (migrateLastProvider (migrateProvider rec0))).
    split; [by rewrite lookup_fmap, Hk|]. split.
    + intros Hp Hc. destruct (migrateProvider_moves rec0 Hp Hc) as [Hmv Hgone].
      split.
      * rewrite <- Hmv. apply field_eq.
        rewrite migrateRoom_other by done. by rewrite migrateLastProvider_other.
      * rewrite migrateRoom_other by done.
        by rewrite migrateLastProvider_other.
    + intros Hr Hg. split; [|apply migrateRoom_no_room].
      assert (Hsame : forall k', k' = "room" \/ k' = "groupChannel" ->
                field (migrateLastProvider (migrateProvider rec0)) k' = field rec0 k').
      { intros k' Hk'. apply field_eq.
        rewrite migrateLastProvider_other by (destruct Hk' as [-> | ->]; done).
        apply migrateProvider_other; destruct Hk' as [-> | ->]; done. }
      rewrite <- (Hsame "room") by auto. apply migrateRoom_moves.
      * rewrite Hsame by auto. done.
      * rewrite Hsame by auto. done.
Qed.

(** *** A null patch *)


(** *** What a save writes *)

Lemma jsonRoundtrip_prop (m : gmap string JsVal) (k : string) (v : JsVal) :
  m !! k = Some v -> v ≠ JUndefined ->
  prop (jsonRoundtrip (JObj m)) k = jsonRoundtrip v.
Proof.
  intros Hk Hv. simpl. rewrite lookup_omap, Hk. simpl. by destruct v.
Qed.

Lemma normalizeSessionEntryDelivery_other (rec : gmap string JsVal) (k : string) :
  k ≠ "deliveryContext" -> k ≠ "lastChannel" -> k ≠ "lastTo" ->
  k ≠ "lastAccountId" -> k ≠ "lastThreadId" ->
  normalizeSessionEntryDelivery normalizeSessionDeliveryFields rec !! k = rec !! k.
Proof.
  intros. unfold normalizeSessionEntryDelivery. case_match; [done|].
  by rewrite !lookup_insert_ne.
Qed.

(** The store file after a save holds, under each key whose entry is an
    object, that entry's properties outside the delivery fields. *)
Lemma save_entry_prop (p key k : string) (store rec : gmap string JsVal)
    (x : Z) (w : World) :
  store !! key = Some (JObj rec) ->
  rec !! k = Some (JNum x) ->
  k ≠ "deliveryContext" -> k ≠ "lastChannel" -> k ≠ "lastTo" ->
  k ≠ "lastAccountId" -> k ≠ "lastThreadId" ->
  prop (field (readStoreFile (save p store w) p) key) k = JNum x.
Proof.
  intros Hkey Hk ? ? ? ? ?.
  unfold readStoreFile, saveSessionStoreUnlocked. simpl.
  rewrite lookup_insert_eq. simpl.
  unfold field. rewrite lookup_omap. unfold normalizeSessionStore.
  rewrite lookup_fmap, Hkey. simpl.
  rewrite lookup_omap, normalizeSessionEntryDelivery_other by done.
  by rewrite Hk.
Qed.

(** *** updateSessionStore reads the disk *)

(** The transaction's result and the file it writes are functions of the
    store file alone, whatever the cache holds. *)
Lemma updateSessionStore_reads_disk {T : Type} (fuel : nat) (p : string)
    (mutator : gmap string JsVal -> T * gmap string JsVal) (w : World) :
  files w !! lockPathOf p = None ->
  exists w',
    updateSessionStore ttl isCacheEnabled normalizeSessionDeliveryFields pid
      (S fuel) p mutator w
      = Some (Returned (mutator (migrateEntry <$> readStoreFile w p)).1, w') /\
    files w' !! p =
      Some (mkFile (Json (jsonRoundtrip (JObj (normalizeSessionStore
              normalizeSessionDeliveryFields
              (mutator (migrateEntry <$> readStoreFile w p)).2)))) (clock w)) /\
    cache w' !! p = None.
Proof.
  intros Hfree.
  unfold updateSessionStore, withSessionStoreLock.
  rewrite acquireLock_free by done.
  rewrite load_skipCache, readStoreFile_other by apply lockPathOf_ne.
  destruct (mutator (migrateEntry <$> readStoreFile w p)) as [r store'] eqn:Hm.
  eexists. split; [reflexivity|]. simpl. split.
  - rewrite lookup_delete_ne by apply lockPathOf_ne. by rewrite lookup_insert_eq.
  - apply lookup_delete_eq.
Qed.

End WithCollaborators.

(** *** The scenarios *)

Import Scenarios.

(** C1 at the stale-cache world: the store file holds "b", written by
    another process; updateSessionStoreEntry starts from the cached
    snapshot and writes a file without "b", while updateSessionStore,
    making the same edit, re-reads the disk and keeps it. *)
Theorem updateSessionStoreEntry_reads_cached_snapshot :
  is_Some (readStoreFile staleCacheWorld storePath !! "b") /\
  (exists v w',
     updateSessionStoreEntry ttl cacheOn plainDeliveryFields 7 1 storePath "a"
       thinkHigh staleCacheWorld = Some (Returned v, w') /\
     readStoreFile w' storePath !! "b" = None) /\
  (exists v w',
     updateSessionStore ttl cacheOn plainDeliveryFields 7 1 storePath
       thinkHighMutator staleCacheWorld = Some (Returned v, w') /\
     readStoreFile w' storePath !! "b" = Some entryB).
Proof.
  split; [|split].
  - vm_compute. eauto.
  - eexists _, _. split; [vm_compute; reflexivity|]. vm_compute. reflexivity.
  - eexists _, _. split; [vm_compute; reflexivity|]. vm_compute. reflexivity.
Qed.

(** C3 at a store file with paired names.  Entry "k" has both [channel]
    and the legacy [provider]: it is loaded with both, the legacy name is
    not removed.  Entry "r" has both [groupChannel] and the legacy
    [room]: the room migration of the same loop removes [room]. *)
Theorem load_keeps_provider_beside_channel :
  (exists rec,
     (loadSessionStore ttl cacheOn storePath false legacyWorld).1 !! "k"
       = Some (JObj rec) /\
     rec !! "channel" = Some (JStr "telegram") /\
     rec !! "provider" = Some (JStr "whatsapp")) /\
  (exists rec,
     (loadSessionStore ttl cacheOn storePath false MoreScenarios.pairedRoomWorld).1 !! "r"
       = Some (JObj rec) /\
     rec !! "groupChannel" = Some (JStr "#new") /\
     rec !! "room" = None).
Proof.
  split; eexists; (split; [vm_compute; reflexivity|]); split; vm_compute; reflexivity.
Qed.

(** C10 at the stale-cache worlds.  The store file holds entry "a"
    stamped [x] by another process, the cache of this process still
    holds it stamped 100.  Whatever mergeSessionEntry and the other
    helpers compute, updateLastRoute builds the entry from the cached
    snapshot: what it returns and the file it writes are the same for
    every [x], so the written updatedAt cannot be max(x, now) for every
    stored [x]. *)
Theorem updateLastRoute_reads_cached_snapshot :
  forall (normalizeSessionDeliveryFields : gmap string JsVal -> DeliveryFields)
         (normalizeDeliveryContext : JsVal -> JsVal)
         (mergeDeliveryContext : JsVal -> JsVal -> JsVal)
         (deliveryContextFromSession : JsVal -> JsVal)
         (deriveSessionMetaPatch :
            JsVal -> string -> JsVal -> JsVal -> option (gmap string JsVal))
         (mergeEntry : JsVal -> gmap string JsVal -> gmap string JsVal)
         (params : RouteParams),
    let route x :=
      updateLastRoute ttl cacheOn normalizeSessionDeliveryFields 7
        normalizeDeliveryContext mergeDeliveryContext deliveryContextFromSession
        deriveSessionMetaPatch mergeEntry 1 storePath "a" params (MoreScenarios.staleStampWorld x) in
    let next :=
      routeNextEntry normalizeSessionDeliveryFields normalizeDeliveryContext
        mergeDeliveryContext deliveryContextFromSession deriveSessionMetaPatch
        mergeEntry entryA 1010 "a" params in
    (forall x,
       prop (field (readStoreFile (MoreScenarios.staleStampWorld x) storePath) "a") "updatedAt"
       = JNum x) /\
    (forall x, exists w',
       route x = Some (Returned (JObj next), w') /\
       JObj (readStoreFile w' storePath)
       = jsonRoundtrip (JObj (normalizeSessionStore normalizeSessionDeliveryFields
                                (<["a" := JObj next]> {[ "a" := entryA ]})))) /\
    ~ (forall x, exists v w',
         route x = Some (Returned v, w') /\
         prop (field (readStoreFile w' storePath) "a") "updatedAt"
         = JNum (Z.max x 1010)).
Proof.
  intros nsdf ndc mdc dcfs derive mergeEntry params route next.
  assert (Hroute : forall x, exists w',
            route x = Some (Returned (JObj next), w') /\
            JObj (readStoreFile w' storePath)
            = jsonRoundtrip (JObj (normalizeSessionStore nsdf
                                     (<["a" := JObj next]> {[ "a" := entryA ]})))).
  { intros x. unfold route, updateLastRoute, withSessionStoreLock.
    rewrite acquireLock_free by reflexivity.
    rewrite (load_hit ttl cacheOn storePath
               (mkCacheEntry {[ "a" := entryA ]} 500 (Some 500)));
      [|reflexivity|reflexivity|vm_compute; discriminate|reflexivity].
    eexists. split; [reflexivity|].
    unfold readStoreFile. simpl files.
    rewrite lookup_delete_ne by apply lockPathOf_ne.
    by rewrite lookup_insert_eq. }
  split; [|split; [exact Hroute|]].
  - intros x. reflexivity.
  - intros Hclaim.
    destruct (Hroute 5000) as (w1 & Hr1 & Hf1), (Hclaim 5000) as (v1 & w1' & Hr1' & Hu1).
    destruct (Hroute 7000) as (w2 & Hr2 & Hf2), (Hclaim 7000) as (v2 & w2' & Hr2' & Hu2).
    rewrite Hr1 in Hr1'. injection Hr1' as _ <-.
    rewrite Hr2 in Hr2'. injection Hr2' as _ <-.
    rewrite <- Hf2 in Hf1. injection Hf1 as Hsame.
    rewrite Hsame, Hu2 in Hu1. discriminate Hu1.
Qed.

(** The same call with the merge the spec describes, in which the
    patch's properties win: the file, stamped 5000 before the call, is
    stamped 1010 after it. *)
Lemma updateLastRoute_lowers_future_stamp :
  prop (field (readStoreFile (MoreScenarios.staleStampWorld 5000) storePath) "a")
    "updatedAt" = JNum 5000 /\
  exists v w',
    updateLastRoute ttl cacheOn plainDeliveryFields 7 keepContext preferFirst
      contextOfSession noMetaPatch mergeSessionEntry 1 storePath "a" routeParams
      (MoreScenarios.staleStampWorld 5000) = Some (Returned v, w') /\
    prop (field (readStoreFile w' storePath) "a") "updatedAt" = JNum 1010.
Proof.
  split; [reflexivity|]. eexists _, _. split; vm_compute; reflexivity.
Qed.

Lemma cacheMigrated_empty (f : gmap string FileNode) (t : Z) (l : list string) :
  cacheMigrated (mkWorld f ∅ t l).
Proof. intros q entry Hq. simpl in Hq. by rewrite lookup_empty in Hq. Defined.

Lemma loadSessionStore_migrates_witness :
  cacheMigrated legacyWorld /\
  (forall k rec,
     (loadSessionStore ttl cacheOn storePath false legacyWorld).1 !! k
       = Some (JObj rec) ->
     rec !! "room" = None /\
     (isString (field rec "provider") = true ->
      isString (field rec "channel") = true)).
Proof.
  split; [apply cacheMigrated_empty|].
  exact (proj1 (loadSessionStore_migrates ttl cacheOn storePath false legacyWorld
                  (cacheMigrated_empty _ _ _))).
Defined.


End StoreFacts.

(** ** Session resolver *)

Module ResolverFacts.
Import Js SessionResolver.

Local Open Scope Z_scope.

(** Whatever evaluateSessionFreshness computes: if an entry is fresh
    exactly when [now - updatedAt <= resetWindow], then the entry stamped
    exactly one window ago is fresh.  A resolver for which that entry is
    not fresh does not follow the criterion. *)
Lemma freshness_clauses_exclude_each_other (ResetPolicy : Type)
    (evaluateSessionFreshness : JsVal -> Z -> ResetPolicy -> bool)
    (resetWindow : ResetPolicy -> Z) (policy : ResetPolicy) (now : Z) :
  (forall t,
     sessionFresh ResetPolicy evaluateSessionFreshness
       (JObj {[ "updatedAt" := JNum t ]}) now policy = true
     <-> now - t <= resetWindow policy) ->
  sessionFresh ResetPolicy evaluateSessionFreshness
    (JObj {[ "updatedAt" := JNum (now - resetWindow policy) ]}) now policy = true.
Proof. intros H. apply H. lia. Qed.

End ResolverFacts.

(** ** Model fallback *)

Module FallbackFacts.
Import Js ModelFallback.

Lemma runsOf_app (l1 l2 : list Event) : runsOf (l1 ++ l2) = runsOf l1 ++ runsOf l2.
Proof.
  induction l1 as [|[c|n] l1 IH]; simpl; [done| |done]. by rewrite IH.
Qed.

Section WithCallbacks.

Context {T St AuthStore : Type}.
Variable isFailoverError : Thrown -> bool.
Variable isTimeoutError : Thrown -> bool.
Variable coerceToFailoverError : Thrown -> ModelCandidate -> option Thrown.
Variable describeFailoverError : Thrown -> Described.
Variable resolveAuthProfileOrder : AuthStore -> string -> list string.
Variable isProfileInCooldown : AuthStore -> string -> St -> bool.
Variable authStore : option AuthStore.
Variable run : string -> string -> St -> RunOutcome T * St.
Variable onError : option (ErrorNotice -> St -> option Thrown * St).

Local Abbreviation loop :=
  (fallbackLoop isFailoverError isTimeoutError coerceToFailoverError
     describeFailoverError resolveAuthProfileOrder isProfileInCooldown
     authStore run onError).
Local Abbreviation fallback :=
  (runWithModelFallback isFailoverError isTimeoutError coerceToFailoverError
     describeFailoverError resolveAuthProfileOrder isProfileInCooldown
     authStore run onError).
Local Abbreviation skip :=
  (cooldownSkip resolveAuthProfileOrder isProfileInCooldown authStore).
Local Abbreviation normalize := (normalizeError coerceToFailoverError).
Local Abbreviation attemptOf := (failedAttempt describeFailoverError).
Local Abbreviation rethrowAbort := (shouldRethrowAbort isFailoverError isTimeoutError).
Local Abbreviation observe := (notify onError).
Local Abbreviation observed := (notifyLog onError).

Lemma runsOf_observed (n : ErrorNotice) : runsOf (observed n) = [].
Proof. unfold notifyLog. by destruct onError. Qed.

(** *** One iteration *)

Lemma loop_skip (total i : nat) (c : ModelCandidate) (rest : list ModelCandidate)
    (attempts : list FallbackAttempt) (lastError : option Thrown)
    (st : St) (log : list Event) :
  skip c st = true ->
  loop total i (c :: rest) attempts lastError st log =
  loop total (S i) rest (attempts ++ [cooldownAttempt c]) lastError st log.
Proof. intros H. simpl. by rewrite H. Qed.

Lemma loop_success (total i : nat) (c : ModelCandidate) (rest : list ModelCandidate)
    (attempts : list FallbackAttempt) (lastError : option Thrown)
    (st st1 : St) (log : list Event) (result : T) :
  skip c st = false ->
  run (provider c) (model c) st = (RunOk result, st1) ->
  loop total i (c :: rest) attempts lastError st log =
  Finished result c attempts st1 (log ++ [EvRun c]).
Proof. intros Hs Hr. simpl. by rewrite Hs, Hr. Qed.

Lemma loop_abort (total i : nat) (c : ModelCandidate) (rest : list ModelCandidate)
    (attempts : list FallbackAttempt) (lastError : option Thrown)
    (st st1 : St) (log : list Event) (err : Thrown) :
  skip c st = false ->
  run (provider c) (model c) st = (RunThrow err, st1) ->
  rethrowAbort err = true ->
  loop total i (c :: rest) attempts lastError st log =
  Rethrown err attempts st1 (log ++ [EvRun c]).
Proof. intros Hs Hr Ha. simpl. by rewrite Hs, Hr, Ha. Qed.

Lemma loop_failover (total i : nat) (c : ModelCandidate) (rest : list ModelCandidate)
    (attempts : list FallbackAttempt) (lastError : option Thrown)
    (st st1 st2 : St) (log : list Event) (err : Thrown) :
  skip c st = false ->
  run (provider c) (model c) st = (RunThrow err, st1) ->
  rethrowAbort err = false ->
  isFailoverError (normalize err c) = true ->
  observe (mkNotice (provider c) (model c) (normalize err c) (i + 1) total) st1
    = (None, st2) ->
  loop total i (c :: rest) attempts lastError st log =
  loop total (S i) rest (attempts ++ [attemptOf c (normalize err c)])
    (Some (normalize err c)) st2
    ((log ++ [EvRun c]) ++
     observed (mkNotice (provider c) (model c) (normalize err c) (i + 1) total)).
Proof. intros Hs Hr Ha Hf Ho. simpl. by rewrite Hs, Hr, Ha, Hf, Ho. Qed.

(** When the loop runs past a candidate, the candidate was skipped for
    cooldown or its run failed with a failover-eligible error. *)
Lemma loop_exhausted_inv (total i : nat) (c : ModelCandidate)
    (rest : list ModelCandidate) (attempts attempts' : list FallbackAttempt)
    (lastError lastError' : option Thrown) (st st' : St) (log log' : list Event) :
  loop total i (c :: rest) attempts lastError st log
    = Exhausted attempts' lastError' st' log' ->
  (skip c st = true /\
   loop total (S i) rest (attempts ++ [cooldownAttempt c]) lastError st log
     = Exhausted attempts' lastError' st' log') \/
  (skip c st = false /\
   exists err st1 st2,
     run (provider c) (model c) st = (RunThrow err, st1) /\
     rethrowAbort err = false /\
     isFailoverError (normalize err c) = true /\
     observe (mkNotice (provider c) (model c) (normalize err c) (i + 1) total) st1
       = (None, st2) /\
     loop total (S i) rest (attempts ++ [attemptOf c (normalize err c)])
       (Some (normalize err c)) st2
       ((log ++ [EvRun c]) ++
        observed (mkNotice (provider c) (model c) (normalize err c) (i + 1) total))
       = Exhausted attempts' lastError' st' log').
Proof.
  simpl. destruct (skip c st) eqn:Hs; [by left|]. right. split; [done|].
  destruct (run (provider c) (model c) st) as [[result|err] st1] eqn:Hr; [done|].
  destruct (rethrowAbort err) eqn:Ha; [done|].
  destruct (isFailoverError (normalize err c)) eqn:Hf; simpl in *; [|done].
  destruct (observe _ st1) as [[e|] st2] eqn:Ho; [done|].
  exists err, st1, st2. done.
Qed.

(** *** Whole runs of the loop *)

Lemma loop_app (total : nat) (pre rest : list ModelCandidate) :
  forall (i : nat) (attempts : list FallbackAttempt) (lastError : option Thrown)
         (st : St) (log : list Event),
  loop total i (pre ++ rest) attempts lastError st log =
  match loop total i pre attempts lastError st log with
  | Exhausted attempts' lastError' st' log' =>
      loop total (i + length pre) rest attempts' lastError' st' log'
  | other => other
  end.
Proof.
  induction pre as [|c pre IH]; intros i attempts lastError st log.
  - simpl. by rewrite Nat.add_0_r.
  - simpl. replace (i + S (length pre))%nat with (S i + length pre)%nat by lia.
    destruct (skip c st); [apply IH|].
    destruct (run (provider c) (model c) st) as [[result|err] st1]; [done|].
    destruct (rethrowAbort err); [done|].
    destruct (isFailoverError (normalize err c)); simpl; [|done].
    destruct (observe _ st1) as [[e|] st2]; [done|]. apply IH.
Qed.

Lemma loop_exhausted_length (total : nat) (candidates : list ModelCandidate) :
  forall (i : nat) (attempts attempts' : list FallbackAttempt)
         (lastError lastError' : option Thrown) (st st' : St) (log log' : list Event),
  loop total i candidates attempts lastError st log
    = Exhausted attempts' lastError' st' log' ->
  length attempts' = (length attempts + length candidates)%nat.
Proof.
  induction candidates as [|c rest IH]; intros i attempts attempts' lastError
    lastError' st st' log log' H.
  - simpl in H. injection H as <- _ _ _. simpl. lia.
  - apply loop_exhausted_inv in H as [[_ H] | [_ (err & st1 & st2 & _ & _ & _ & _ & H)]];
      apply IH in H; rewrite H, length_app; simpl; lia.
Qed.

(** The calls to [run] follow the candidate order. *)
Lemma loop_exhausted_runs (total : nat) (candidates : list ModelCandidate) :
  forall (i : nat) (attempts attempts' : list FallbackAttempt)
         (lastError lastError' : option Thrown) (st st' : St) (log log' : list Event),
  loop total i candidates attempts lastError st log
    = Exhausted attempts' lastError' st' log' ->
  exists ran, runsOf log' = runsOf log ++ ran /\ sublist ran candidates.
Proof.
  induction candidates as [|c rest IH]; intros i attempts attempts' lastError
    lastError' st st' log log' H.
  - simpl in H. injection H as _ _ _ <-. exists []. by rewrite app_nil_r.
  - apply loop_exhausted_inv in H as [[_ H] | [_ (err & st1 & st2 & _ & _ & _ & _ & H)]];
      apply IH in H as (ran & Hlog & Hsub).
    + exists ran. split; [done|]. by apply sublist_cons.
    + exists (c :: ran). split; [|by apply sublist_skip].
      rewrite Hlog, !runsOf_app, runsOf_observed. simpl.
      by rewrite app_nil_r, <- app_assoc.
Qed.

(** *** Success ends the loop *)

(** C5.  When every candidate before [c] was skipped or failed over, [c]
    is not in cooldown and its run succeeds, runWithModelFallback returns
    that result with [c]'s provider and model and the attempts recorded
    so far, one per earlier candidate; [run] was called for earlier
    candidates in list order and for [c], and for no later candidate. *)
Theorem runWithModelFallback_first_success (pre post : list ModelCandidate)
    (c : ModelCandidate) (st0 st1 st2 : St) (attempts : list FallbackAttempt)
    (lastError : option Thrown) (log1 : list Event) (result : T) :
  loop (length (pre ++ c :: post)) 0 pre [] None st0 []
    = Exhausted attempts lastError st1 log1 ->
  skip c st1 = false ->
  run (provider c) (model c) st1 = (RunOk result, st2) ->
  fallback (pre ++ c :: post) st0
    = (Success result (provider c) (model c) attempts, st2, log1 ++ [EvRun c]) /\
  length attempts = length pre /\
  sublist (runsOf (log1 ++ [EvRun c])) (pre ++ [c]).
Proof.
  intros Hpre Hskip Hrun.
  split; [|split].
  - unfold runWithModelFallback. rewrite loop_app, Hpre.
    by rewrite (loop_success _ _ _ _ _ _ _ st2 _ result Hskip Hrun).
  - by apply loop_exhausted_length in Hpre.
  - apply loop_exhausted_runs in Hpre as (ran & Hlog & Hsub).
    rewrite runsOf_app, Hlog. simpl. by apply sublist_app.
Qed.

(** The spec's example: A and B fail over, C answers. *)
Lemma three_candidates_use_third (A B C : ModelCandidate) (eA eB : Thrown)
    (st0 st1 st2 st3 st4 st5 : St) (result : T) :
  skip A st0 = false ->
  run (provider A) (model A) st0 = (RunThrow eA, st1) ->
  rethrowAbort eA = false ->
  isFailoverError (normalize eA A) = true ->
  observe (mkNotice (provider A) (model A) (normalize eA A) 1 3) st1 = (None, st2) ->
  skip B st2 = false ->
  run (provider B) (model B) st2 = (RunThrow eB, st3) ->
  rethrowAbort eB = false ->
  isFailoverError (normalize eB B) = true ->
  observe (mkNotice (provider B) (model B) (normalize eB B) 2 3) st3 = (None, st4) ->
  skip C st4 = false ->
  run (provider C) (model C) st4 = (RunOk result, st5) ->
  exists log,
    fallback [A; B; C] st0
      = (Success result (provider C) (model C)
           [attemptOf A (normalize eA A); attemptOf B (normalize eB B)], st5, log) /\
    runsOf log = [A; B; C].
Proof.
  intros HsA HrA HaA HfA HoA HsB HrB HaB HfB HoB HsC HrC.
  unfold runWithModelFallback. simpl length.
  rewrite (loop_failover 3 0 _ _ _ _ _ _ _ _ _ HsA HrA HaA HfA HoA).
  rewrite (loop_failover 3 1 _ _ _ _ _ _ _ _ _ HsB HrB HaB HfB HoB).
  rewrite (loop_success _ _ _ _ _ _ _ _ _ _ HsC HrC).
  eexists. split; [reflexivity|].
  rewrite !runsOf_app, !runsOf_observed. done.
Qed.

(** *** Cancellation *)

Lemma shouldRethrowAbort_iff (err : Thrown) :
  rethrowAbort err = true <->
  isObject err = true /\ isFailoverError err = false /\
  errorName err = "AbortError" /\ isTimeoutError err = false.
Proof.
  unfold shouldRethrowAbort, isAbortError.
  destruct err as [v|b n m ca]; simpl.
  - rewrite orb_true_r. simpl. split; [discriminate|]. intros [H _]. discriminate.
  - destruct (isFailoverError _); simpl.
    + split; [discriminate|]. intros (_ & H & _). discriminate.
    + rewrite andb_true_iff, negb_true_iff, String.eqb_eq. tauto.
Qed.

(** C6.  When the run of [c] throws an object named "AbortError" that
    is neither a FailoverError nor a timeout, runWithModelFallback
    rethrows it at once: the attempts are as they were, the observer is
    not called and no later candidate is run.  A timeout error, also one
    named "AbortError", is not rethrown as a cancellation: once
    classified as failover-eligible it is recorded, reported and the
    loop moves on to the next candidate. *)
Theorem abort_rethrown_timeout_falls_back (pre post : list ModelCandidate)
    (c : ModelCandidate) (st0 st st1 : St) (attempts : list FallbackAttempt)
    (lastError : option Thrown) (log : list Event) (err : Thrown) :
  loop (length (pre ++ c :: post)) 0 pre [] None st0 []
    = Exhausted attempts lastError st log ->
  skip c st = false ->
  run (provider c) (model c) st = (RunThrow err, st1) ->
  (isObject err = true -> isFailoverError err = false ->
   errorName err = "AbortError" -> isTimeoutError err = false ->
     loop (length (pre ++ c :: post)) (0 + length pre) (c :: post) attempts lastError st log
       = Rethrown err attempts st1 (log ++ [EvRun c]) /\
     fallback (pre ++ c :: post) st0 = (Failure err, st1, log ++ [EvRun c])) /\
  (isTimeoutError err = true ->
     forall st2,
       isFailoverError (normalize err c) = true ->
       observe (mkNotice (provider c) (model c) (normalize err c)
                  (0 + length pre + 1) (length (pre ++ c :: post))) st1 = (None, st2) ->
       loop (length (pre ++ c :: post)) (0 + length pre) (c :: post) attempts lastError st log
       = loop (length (pre ++ c :: post)) (S (0 + length pre)) post
           (attempts ++ [attemptOf c (normalize err c)]) (Some (normalize err c)) st2
           ((log ++ [EvRun c]) ++
            observed (mkNotice (provider c) (model c) (normalize err c)
                        (0 + length pre + 1) (length (pre ++ c :: post))))).
Proof.
  intros Hpre Hskip Hrun. split.
  - intros Hobj Hnot Hname Hnotimeout.
    assert (Habort : rethrowAbort err = true) by by apply shouldRethrowAbort_iff.
    pose proof (loop_abort (length (pre ++ c :: post)) (0 + length pre) c post
                  attempts lastError st st1 log err Hskip Hrun Habort) as Hloop.
    split; [done|].
    unfold runWithModelFallback. by rewrite loop_app, Hpre, Hloop.
  - intros Htimeout st2 Hf Ho.
    assert (Hno : rethrowAbort err = false).
    { unfold shouldRethrowAbort. rewrite Htimeout. apply andb_false_r. }
    by apply loop_failover with (st1 := st1).
Qed.

(** *** Cooldown *)

Lemma cooldownSkip_all_cooling (store : AuthStore) (c : ModelCandidate) (st : St) :
  authStore = Some store ->
  resolveAuthProfileOrder store (provider c) ≠ [] ->
  (forall id, id ∈ resolveAuthProfileOrder store (provider c) ->
     isProfileInCooldown store id st = true) ->
  skip c st = true.
Proof.
  intros Hstore Hne Hall. unfold cooldownSkip. rewrite Hstore.
  apply andb_true_iff. split.
  - destruct (resolveAuthProfileOrder store (provider c)); [done|]. done.
  - apply negb_true_iff. apply not_true_is_false. intros Hex.
    apply existsb_exists in Hex as (id & Hin & Hid).
    apply list_elem_of_In in Hin. rewrite (Hall id Hin) in Hid. done.
Qed.

Lemma loop_log_prefix (total : nat) (candidates : list ModelCandidate) :
  forall (i : nat) (attempts : list FallbackAttempt) (lastError : option Thrown)
         (st : St) (log : list Event),
  log `prefix_of` outcomeLog (loop total i candidates attempts lastError st log).
Proof.
  induction candidates as [|c rest IH]; intros i attempts lastError st log; simpl.
  - done.
  - destruct (skip c st); [apply IH|].
    destruct (run (provider c) (model c) st) as [[result|err] st1]; simpl.
    { by apply prefix_app_r. }
    destruct (rethrowAbort err); simpl; [by apply prefix_app_r|].
    destruct (isFailoverError (normalize err c)); simpl; [|by apply prefix_app_r].
    destruct (observe _ st1) as [[e|] st2]; simpl.
    + rewrite <- app_assoc. by apply prefix_app_r.
    + etrans; [|apply IH]. rewrite <- app_assoc. by apply prefix_app_r.
Qed.

Lemma loop_runs_available (total i : nat) (d : ModelCandidate)
    (rest : list ModelCandidate) (attempts : list FallbackAttempt)
    (lastError : option Thrown) (st : St) (log : list Event) :
  skip d st = false ->
  (log ++ [EvRun d])
    `prefix_of` outcomeLog (loop total i (d :: rest) attempts lastError st log).
Proof.
  intros Hd. simpl. rewrite Hd.
  destruct (run (provider d) (model d) st) as [[result|err] st1]; simpl; [done|].
  destruct (rethrowAbort err); simpl; [done|].
  destruct (isFailoverError (normalize err d)); simpl; [|done].
  destruct (observe _ st1) as [[e|] st2]; simpl.
  - by apply prefix_app_r.
  - etrans; [|apply loop_log_prefix]. by apply prefix_app_r.
Qed.

Lemma cooldownSkip_available (store : AuthStore) (d : ModelCandidate) (st : St)
    (id : string) :
  authStore = Some store ->
  id ∈ resolveAuthProfileOrder store (provider d) ->
  isProfileInCooldown store id st = false ->
  skip d st = false.
Proof.
  intros Hstore Hin Hid. unfold cooldownSkip. rewrite Hstore.
  apply andb_false_iff. right. apply negb_false_iff.
  apply existsb_exists. exists id. split; [by apply list_elem_of_In|].
  by rewrite Hid.
Qed.

(** C7.  A candidate whose provider has stored profiles, all of them in
    cooldown, adds the synthetic rate_limit attempt and the loop goes on
    with the next candidate from the same state and log: [run] is not
    called for it.  When the next candidate has a profile that is not in
    cooldown, the next call made is its run, from the state the loop
    was in, and a result of that run is the result of the loop. *)
Theorem cooldown_candidate_skipped (total i : nat) (c d : ModelCandidate)
    (rest : list ModelCandidate) (attempts : list FallbackAttempt)
    (lastError : option Thrown) (st : St) (log : list Event) (store : AuthStore) :
  authStore = Some store ->
  resolveAuthProfileOrder store (provider c) ≠ [] ->
  (forall id, id ∈ resolveAuthProfileOrder store (provider c) ->
     isProfileInCooldown store id st = true) ->
  loop total i (c :: d :: rest) attempts lastError st log
    = loop total (S i) (d :: rest) (attempts ++ [cooldownAttempt c]) lastError st log /\
  a_provider (cooldownAttempt c) = provider c /\
  a_model (cooldownAttempt c) = model c /\
  a_reason (cooldownAttempt c) = Some "rate_limit" /\
  (forall id,
     id ∈ resolveAuthProfileOrder store (provider d) ->
     isProfileInCooldown store id st = false ->
     (log ++ [EvRun d])
       `prefix_of` outcomeLog (loop total i (c :: d :: rest) attempts lastError st log) /\
     forall result st1,
       run (provider d) (model d) st = (RunOk result, st1) ->
       loop total i (c :: d :: rest) attempts lastError st log
       = Finished result d (attempts ++ [cooldownAttempt c]) st1 (log ++ [EvRun d])).
Proof.
  intros Hstore Hne Hall.
  pose proof (cooldownSkip_all_cooling store c st Hstore Hne Hall) as Hskip.
  pose proof (loop_skip total i c (d :: rest) attempts lastError st log Hskip) as Hloop.
  split; [done|]. do 3 (split; [done|]).
  intros id Hin Hid.
  pose proof (cooldownSkip_available store d st id Hstore Hin Hid) as Hd.
  rewrite Hloop. split; [by apply loop_runs_available|].
  intros result st1 Hrun. by apply loop_success.
Qed.

(** *** Exhaustion *)

(** When the loop uses up the candidates, one attempt
    was recorded per candidate.  If that is a single attempt and it came
    from a failed run, runWithModelFallback throws the error the loop
    kept as lastError, which is the caught error as normalized by
    coerceToFailoverError: the caught error itself when the coercion
    returns nothing or returns it as it is, never an aggregate.  With two
    or more attempts it throws one new Error whose message is
    "All models failed (N): " followed by the attempts' lines joined by
    " | ", with the last normalized error as cause when it is an Error.
    isFailoverError holds of objects only (it is an instanceof test). *)
Theorem exhaustion_single_or_aggregate (candidates : list ModelCandidate)
    (st0 st : St) (attempts : list FallbackAttempt) (lastError : option Thrown)
    (log : list Event) :
  (forall e, isFailoverError e = true -> isObject e = true) ->
  loop (length candidates) 0 candidates [] None st0 []
    = Exhausted attempts lastError st log ->
  length attempts = length candidates /\
  (length attempts = 1%nat -> forall e, lastError = Some e ->
     fallback candidates st0 = (Failure e, st, log) /\
     exists c err st1,
       candidates = [c] /\
       run (provider c) (model c) st0 = (RunThrow err, st1) /\
       e = normalize err c /\
       (coerceToFailoverError err c = None \/ coerceToFailoverError err c = Some err ->
        e = err)) /\
  ((2 <= length attempts)%nat ->
     fallback candidates st0
     = (Failure
          (ErrorObject true (Some "Error")
             ("All models failed (" +:+ showNat (length attempts) +:+ "): "
              +:+ join " | " (attemptLine <$> attempts))
             (match lastError with
              | Some e => if instanceofError e then Some e else None
              | None => None
              end)),
        st, log)).
Proof.
  intros Hobj Hloop.
  pose proof (loop_exhausted_length _ _ _ _ _ _ _ _ _ _ _ Hloop) as Hlen.
  simpl in Hlen. split; [done|]. split.
  - intros Hone e ->. rewrite Hlen in Hone.
    destruct candidates as [|c [|c' rest]]; try done. clear Hone Hlen.
    simpl length in Hloop.
    pose proof Hloop as Hinv.
    apply loop_exhausted_inv in Hinv
      as [[_ H] | [_ (err & st1 & st2 & Hrun & _ & Hfail & _ & H)]];
      simpl in H; [congruence|].
    injection H as <- He <- <-.
    assert (Htruthy : thrownTruthy (normalize err c) = true).
    { apply Hobj in Hfail. by destruct (normalize err c). }
    split.
    + unfold runWithModelFallback. simpl length. rewrite Hloop.
      unfold exhaustion. rewrite <- He, Htruthy. done.
    + exists c, err, st1. split; [done|]. split; [done|]. split; [congruence|].
      intros Hsame. rewrite <- He. unfold normalizeError.
      by destruct Hsame as [-> | ->].
  - intros Htwo. unfold runWithModelFallback. rewrite Hloop.
    do 2 f_equal. f_equal. unfold exhaustion, aggregateError, attemptsSummary.
    destruct attempts as [|a1 [|a2 more]]; simpl in Htwo; try lia.
    destruct lastError as [e|]; done.
Qed.

(** C2, single failure.  The only candidate's run throws an error that
    is no cancellation and is not itself a FailoverError, and the
    classification makes a failover error of it.  Then
    runWithModelFallback throws what the loop kept as lastError, the
    error coerceToFailoverError returned, and that is not the error the
    run threw.  isFailoverError holds of objects only (it is an
    instanceof test). *)
Theorem single_failure_throws_normalized_error (c : ModelCandidate)
    (st0 st1 st2 : St) (err : Thrown) :
  (forall e, isFailoverError e = true -> isObject e = true) ->
  skip c st0 = false ->
  run (provider c) (model c) st0 = (RunThrow err, st1) ->
  errorName err ≠ "AbortError" ->
  isFailoverError err = false ->
  isFailoverError (normalize err c) = true ->
  observe (mkNotice (provider c) (model c) (normalize err c) 1 1) st1 = (None, st2) ->
  (fallback [c] st0).1.1 = Failure (normalize err c) /\
  coerceToFailoverError err c = Some (normalize err c) /\
  normalize err c ≠ err.
Proof.
  intros Hobj Hskip Hrun Hname Hnot Hclass Hobs.
  assert (Hdiff : normalize err c ≠ err) by (intros Heq; congruence).
  assert (Hno : rethrowAbort err = false).
  { apply not_true_is_false. intros H.
    apply shouldRethrowAbort_iff in H as (_ & _ & H & _). done. }
  split; [|split; [|done]].
  - unfold runWithModelFallback. simpl.
    rewrite Hskip, Hrun, Hno, Hclass. simpl. rewrite Hobs. simpl.
    apply Hobj in Hclass. by destruct (normalize err c).
  - unfold normalizeError in *.
    destruct (coerceToFailoverError err c) as [e|]; simpl in *; [done|congruence].
Qed.

End WithCallbacks.

(** *** The scenarios *)

Import Scenarios.

Lemma isFailover_object (e : Thrown) : isFailover e = true -> isObject e = true.
Proof. destruct e; simpl; [discriminate|done]. Defined.

Lemma single_failure_throws_normalized_error_witness :
  (fallbackWith None [candidate "a"]).1.1
  = Failure (ErrorObject true (Some "FailoverError") "rate limit exceeded"
               (Some rateLimited)) /\
  ErrorObject true (Some "FailoverError") "rate limit exceeded" (Some rateLimited)
  ≠ rateLimited.
Proof.
  destruct (single_failure_throws_normalized_error isFailover isTimeout coerce describe
              profilesOf inCooldown None scriptedRun None (candidate "a")
              0%nat 1%nat 1%nat rateLimited) as (Hthrown & _ & Hdiff).
  - exact isFailover_object.
  - reflexivity.
  - reflexivity.
  - vm_compute; discriminate.
  - reflexivity.
  - reflexivity.
  - reflexivity.
  - split; [exact Hthrown|exact Hdiff].
Defined.

Lemma exhaustion_single_or_aggregate_witness :
  (fallbackWith (Some tt) [candidate "a"; candidate "b"]).1.1
  = Failure
      (ErrorObject true (Some "Error")
         "All models failed (2): a/m1: rate limit exceeded (rate_limit) | b/m1: rate limit exceeded (rate_limit)"
         (Some (ErrorObject true (Some "FailoverError") "rate limit exceeded"
                  (Some rateLimited)))).
Proof.
  edestruct (exhaustion_single_or_aggregate isFailover isTimeout coerce describe
               profilesOf inCooldown (Some tt) scriptedRun None
               [candidate "a"; candidate "b"] 0%nat)
    as (_ & _ & Hmany).
  - exact isFailover_object.
  - vm_compute. reflexivity.
  - unfold fallbackWith. rewrite Hmany; [vm_compute; reflexivity | simpl; lia].
Defined.

Lemma runWithModelFallback_first_success_witness :
  exists attempts log,
    fallbackWith (Some tt) ([candidate "a"; candidate "b"] ++ candidate "c" :: [])
      = (Success "answer from c" "c" "m1" attempts, 3%nat, log ++ [EvRun (candidate "c")]) /\
    length attempts = 2%nat.
Proof.
  eexists _, _.
  edestruct (runWithModelFallback_first_success isFailover isTimeout coerce describe
               profilesOf inCooldown (Some tt) scriptedRun None
               [candidate "a"; candidate "b"] [] (candidate "c") 0%nat)
    as (Hrun & Hlen & _).
  - vm_compute. reflexivity.
  - vm_compute. reflexivity.
  - vm_compute. reflexivity.
  - split; [exact Hrun | exact Hlen].
Defined.

Lemma abort_rethrown_timeout_falls_back_witness :
  (exists log,
     fallbackWith (Some tt) ([candidate "a"] ++ candidate "x" :: [candidate "c"])
       = (Failure cancelled, 2%nat, log ++ [EvRun (candidate "x")]) /\
     runsOf log = [candidate "a"]) /\
  loopWith None 2 0 [candidate "t"; candidate "c"] [] None 0%nat []
  = loopWith None 2 1 [candidate "c"]
      [failedAttempt describe (candidate "t") (normalizeError coerce timedOut (candidate "t"))]
      (Some (normalizeError coerce timedOut (candidate "t"))) 1%nat
      [EvRun (candidate "t")].
Proof.
  split.
  - eexists.
    edestruct (abort_rethrown_timeout_falls_back isFailover isTimeout coerce describe
                 profilesOf inCooldown (Some tt) scriptedRun None
                 [candidate "a"] [candidate "c"] (candidate "x") 0%nat)
      as [Habort _].
    + vm_compute. reflexivity.
    + vm_compute. reflexivity.
    + vm_compute. reflexivity.
    + destruct Habort as [_ Hthrown];
        [reflexivity|reflexivity|reflexivity|reflexivity|].
      split; [exact Hthrown | vm_compute; reflexivity].
  - refine (proj2 (abort_rethrown_timeout_falls_back isFailover isTimeout coerce
                     describe profilesOf inCooldown None scriptedRun None
                     [] [candidate "c"] (candidate "t") 0%nat 0%nat 1%nat [] None []
                     timedOut _ _ _) _ 1%nat _ _).
    + reflexivity.
    + reflexivity.
    + reflexivity.
    + reflexivity.
    + reflexivity.
    + reflexivity.
Defined.

Lemma cooldown_candidate_skipped_witness :
  fallbackLoop isFailover isTimeout coerce describe MoreScenarios.mixedProfilesOf
    MoreScenarios.mixedCooldown (Some tt) scriptedRun None 2 0 [candidate "cool"; candidate "warm"] [] None 0%nat []
  = Finished "answer from warm" (candidate "warm") [cooldownAttempt (candidate "cool")]
      1%nat [EvRun (candidate "warm")].
Proof.
  edestruct (cooldown_candidate_skipped isFailover isTimeout coerce describe
               MoreScenarios.mixedProfilesOf MoreScenarios.mixedCooldown
               (Some tt) scriptedRun None
               2 0 (candidate "cool") (candidate "warm") [] [] None 0%nat [] tt)
    as (_ & _ & _ & _ & Hnext).
  - reflexivity.
  - vm_compute. discriminate.
  - intros id Hid. vm_compute in Hid.
    apply elem_of_cons in Hid as [-> | Hid]; [reflexivity|].
    apply elem_of_cons in Hid as [-> | Hid]; [reflexivity|].
    by apply elem_of_nil in Hid.
  - destruct (Hnext "warm:2") as [_ Hrun].
    + vm_compute. apply list_elem_of_further, list_elem_of_here.
    + reflexivity.
    + exact (Hrun "answer from warm" 1%nat eq_refl).
Defined.

End FallbackFacts.

(** ** Gateway call *)

Module GatewayFacts.
Import Js GatewayCall.

Local Open Scope Z_scope.

Section WithCall.

Context {T E : Type}.
Variable errTruthy : E -> bool.
Variable details : string.
Variable timeoutMs : Z.

Local Abbreviation step := (handle errTruthy details timeoutMs).
Local Abbreviation after := (afterSignals errTruthy details timeoutMs).
Local Abbreviation closeMessage := (formatCloseError details).

(** After any signals: an unsettled call has not set ignoreClose and its
    promise is pending; a settled call has a settled promise, settled by
    the one call to resolve or reject. *)
Lemma afterSignals_invariant (sigs : list (Signal T E)) :
  (settled (after sigs) = false ->
     ignoreClose (after sigs) = false /\ promise (after sigs) = None /\
     settleCalls (after sigs) = 0%nat) /\
  (settled (after sigs) = true ->
     is_Some (promise (after sigs)) /\ settleCalls (after sigs) = 1%nat).
Proof.
  unfold afterSignals.
  induction sigs as [|sig sigs IH] using rev_ind.
  - simpl. split; [done|discriminate].
  - rewrite fold_left_app. simpl.
    set (st := fold_left _ sigs initial) in *.
    destruct IH as [IH0 IH1].
    destruct (settled st) eqn:Hs.
    + destruct (IH1 eq_refl) as [Hp Hc].
      destruct sig; unfold handle, stop, clientStop, setIgnoreClose; simpl;
        rewrite ?Hs; simpl; rewrite ?Hs; (split; [congruence|done]).
    + destruct (IH0 eq_refl) as (Hi & Hp & Hc).
      destruct sig; unfold handle, stop, clientStop, setIgnoreClose; simpl;
        rewrite ?Hs, ?Hi; simpl; rewrite ?Hs, ?Hp, ?Hc; simpl;
        (split; [discriminate|]); intros _;
        (split; [|done]); repeat case_match; eauto.
Qed.

(** A settled call ignores every signal. *)
Lemma handle_settled (sig : Signal T E) (st : CallState T E) :
  settled st = true ->
  promise (step sig st) = promise st /\
  settled (step sig st) = true /\
  settleCalls (step sig st) = settleCalls st.
Proof.
  intros Hs.
  destruct sig; unfold handle, stop, clientStop, setIgnoreClose; simpl;
    rewrite ?Hs; simpl; rewrite ?Hs; done.
Qed.

Lemma handle_many_settled (sigs : list (Signal T E)) (st : CallState T E) :
  settled st = true ->
  promise (fold_left (fun s sig => step sig s) sigs st) = promise st /\
  settleCalls (fold_left (fun s sig => step sig s) sigs st) = settleCalls st.
Proof.
  revert st. induction sigs as [|sig sigs IH]; intros st Hs; simpl; [done|].
  destruct (handle_settled sig st Hs) as (Hp & Hs' & Hc).
  destruct (IH _ Hs') as [-> ->]. done.
Qed.

Lemma handle_close_pending (code : Z) (reason : string) (st : CallState T E) :
  settled st = false -> ignoreClose st = false -> promise st = None ->
  promise (step (Closed code reason) st)
    = Some (Rejected (NewError (closeMessage code reason))) /\
  settled (step (Closed code reason) st) = true.
Proof.
  intros Hs Hi Hp. unfold handle, stop, clientStop, setIgnoreClose. simpl.
  rewrite Hs, Hi. simpl. rewrite Hp. done.
Qed.

Lemma formatCloseError_shape (code : Z) (reason : string) :
  exists hint,
    closeMessage code reason =
    "gateway closed (" +:+ showZ code +:+ hint +:+ "): "
      +:+ (if String.eqb (trim reason) "" then "no close reason" else trim reason)
      +:+ String (ascii_of_nat 10) details /\
    (code = 1000 -> hint = " normal closure").
Proof.
  unfold formatCloseError.
  destruct (code =? 1006) eqn:H6; [|destruct (code =? 1000) eqn:H0].
  - eexists. split; [reflexivity|]. intros ->. discriminate.
  - eexists. split; [reflexivity|]. done.
  - eexists. split; [reflexivity|]. intros ->. discriminate.
Qed.

(** C8.  After any signals, if the call has not settled, a close with
    any code and reason rejects it with a new Error whose message holds
    the code, the trimmed reason (or a placeholder) and the connection
    details, code 1000 included; whatever comes later leaves that
    rejection in place.  If the call has settled, no signal changes the
    promise.  resolve or reject is called at most once. *)
Theorem close_rejects_and_settlement_is_final (sigs : list (Signal T E)) :
  (settled (after sigs) = false ->
   forall code reason,
     promise (step (Closed code reason) (after sigs))
       = Some (Rejected (NewError (closeMessage code reason))) /\
     (exists hint,
        closeMessage code reason =
        "gateway closed (" +:+ showZ code +:+ hint +:+ "): "
          +:+ (if String.eqb (trim reason) "" then "no close reason" else trim reason)
          +:+ String (ascii_of_nat 10) details /\
        (code = 1000 -> hint = " normal closure")) /\
     forall later,
       promise (after ((sigs ++ [Closed code reason]) ++ later))
         = Some (Rejected (NewError (closeMessage code reason)))) /\
  (settled (after sigs) = true ->
   forall sig,
     promise (step sig (after sigs)) = promise (after sigs) /\
     is_Some (promise (after sigs))) /\
  (settleCalls (after sigs) <= 1)%nat.
Proof.
  destruct (afterSignals_invariant sigs) as [H0 H1].
  split; [|split].
  - intros Hs code reason. destruct (H0 Hs) as (Hi & Hp & Hc).
    destruct (handle_close_pending code reason _ Hs Hi Hp) as [Hnow Hset].
    split; [done|]. split; [apply formatCloseError_shape|].
    intros later.
    destruct (handle_many_settled later _ Hset) as [Hlater _].
    rewrite <- Hnow, <- Hlater.
    unfold afterSignals. by rewrite !fold_left_app.
  - intros Hs sig. split; [by apply handle_settled|]. by apply H1.
  - destruct (settled (after sigs)) eqn:Hs.
    + destruct (H1 eq_refl) as [_ ->]. done.
    + destruct (H0 eq_refl) as (_ & _ & ->). lia.
Qed.

End WithCall.

Lemma close_rejects_and_settlement_is_final_witness :
  promise (handle (T := string) (fun e : string => true) "Gateway target: ws://127.0.0.1:18789"
             10000 (Closed 1000 "") (afterSignals (fun e : string => true)
             "Gateway target: ws://127.0.0.1:18789" 10000 []))
  = Some (Rejected (NewError
      ("gateway closed (1000 normal closure): no close reason"
       +:+ String (ascii_of_nat 10) "Gateway target: ws://127.0.0.1:18789"))).
Proof.
  refine (proj1 (proj1 (close_rejects_and_settlement_is_final (T := string)
            (fun e : string => true) "Gateway target: ws://127.0.0.1:18789" 10000 [])
            _ 1000 "")).
  reflexivity.
Defined.

End GatewayFacts.

(** ** Session store: loading, saving and locking *)

Module StoreMore.
Import Js SessionStore SessionStoreOps StoreFacts.

Local Open Scope Z_scope.

Lemma migrateLastProvider_pruned (rec : gmap string JsVal) :
  isString (field (migrateLastProvider rec) "lastProvider") = true ->
  isString (field (migrateLastProvider rec) "lastChannel") = true.
Proof.
  unfold migrateLastProvider.
  destruct (isString (field rec "lastChannel")) eqn:Hc;
    destruct (isString (field rec "lastProvider")) eqn:Hp; simpl; try congruence.
  unfold field. rewrite lookup_delete_eq. simpl. discriminate.
Qed.

Lemma migrateProvider_fixed (rec : gmap string JsVal) :
  (isString (field rec "provider") = true -> isString (field rec "channel") = true) ->
  migrateProvider rec = rec.
Proof.
  intros H. unfold migrateProvider.
  destruct (isString (field rec "provider")); [|by rewrite andb_false_r].
  by rewrite H.
Qed.

Lemma migrateLastProvider_fixed (rec : gmap string JsVal) :
  (isString (field rec "lastProvider") = true ->
   isString (field rec "lastChannel") = true) ->
  migrateLastProvider rec = rec.
Proof.
  intros H. unfold migrateLastProvider.
  destruct (isString (field rec "lastProvider")); [|by rewrite andb_false_r].
  by rewrite H.
Qed.

Lemma migrateRoom_fixed (rec : gmap string JsVal) :
  rec !! "room" = None -> migrateRoom rec = rec.
Proof.
  intros H. unfold migrateRoom, field. rewrite H. simpl.
  by rewrite andb_false_r.
Qed.

(** X5.  The migration of an entry is idempotent: migrating a migrated
    entry changes nothing. *)
Theorem migrateEntry_idempotent (entry : JsVal) :
  migrateEntry (migrateEntry entry) = migrateEntry entry.
Proof.
  destruct entry as [| | | | | |rec|]; try done. simpl. f_equal.
  set (r1 := migrateProvider rec).
  set (r2 := migrateLastProvider r1).
  set (r3 := migrateRoom r2).
  assert (H1 : migrateProvider r3 = r3).
  { apply migrateProvider_fixed.
    rewrite (field_eq r3 r1 "provider"), (field_eq r3 r1 "channel").
    - apply migrateProvider_pruned.
    - unfold r3, r2. rewrite migrateRoom_other by done.
      by rewrite migrateLastProvider_other.
    - unfold r3, r2. rewrite migrateRoom_other by done.
      by rewrite migrateLastProvider_other. }
  rewrite H1.
  assert (H2 : migrateLastProvider r3 = r3).
  { apply migrateLastProvider_fixed.
    rewrite (field_eq r3 r2 "lastProvider"), (field_eq r3 r2 "lastChannel").
    - apply migrateLastProvider_pruned.
    - unfold r3. by rewrite migrateRoom_other.
    - unfold r3. by rewrite migrateRoom_other. }
  rewrite H2. apply migrateRoom_fixed, migrateRoom_no_room.
Qed.

(** The migration only touches the six names it is about: every
    other property of an entry is loaded as it was stored. *)
Theorem migrateEntry_keeps_other_properties (rec : gmap string JsVal) (k : string) :
  k ≠ "channel" -> k ≠ "provider" -> k ≠ "lastChannel" -> k ≠ "lastProvider" ->
  k ≠ "groupChannel" -> k ≠ "room" ->
  prop (migrateEntry (JObj rec)) k = field rec k.
Proof.
  intros. simpl. apply field_eq.
  rewrite migrateRoom_other, migrateLastProvider_other by done.
  by apply migrateProvider_other.
Qed.

Section WithCollaborators.

Variable ttl : Z.
Variable isCacheEnabled : Z -> bool.
Variable normalizeSessionDeliveryFields : gmap string JsVal -> DeliveryFields.
Variable pid : Z.

Local Abbreviation load := (loadSessionStore ttl isCacheEnabled).
Local Abbreviation fromDisk := (loadFromDisk ttl isCacheEnabled).
Local Abbreviation save := (saveSessionStoreUnlocked normalizeSessionDeliveryFields).
Local Abbreviation transact :=
  (updateSessionStore ttl isCacheEnabled normalizeSessionDeliveryFields pid).

(** X1.  Loading is fail-open: when the cache is not consulted and the
    store file is missing, unparsable or not an object, the store is
    empty. *)
Theorem loadSessionStore_fail_open (p : string) (sc : bool) (w : World) :
  sc = true \/ cache w !! p = None ->
  (forall m t, files w !! p ≠ Some (mkFile (Json (JObj m)) t)) ->
  (load p sc w).1 = ∅.
Proof.
  intros Hmiss Hbad.
  rewrite (load_miss ttl isCacheEnabled p sc w Hmiss), fromDisk_store.
  unfold readStoreFile.
  destruct (files w !! p) as [[[|[]] t]|] eqn:Hf; try apply fmap_empty.
  by destruct (Hbad fields t).
Qed.

Lemma readStoreFile_withCache (c : gmap string CacheEntry) (p : string) (w : World) :
  readStoreFile (withCache c w) p = readStoreFile w p.
Proof. done. Qed.



(** Loading only reads: the files, the clock and the write log are
    as before, and so is the cache entry of every other path. *)
Theorem loadSessionStore_read_only (p : string) (sc : bool) (w : World) :
  files (load p sc w).2 = files w /\
  clock (load p sc w).2 = clock w /\
  writes (load p sc w).2 = writes w /\
  (forall q, q ≠ p -> cache (load p sc w).2 !! q = cache w !! q).
Proof.
  destruct (load_frame ttl isCacheEnabled p sc w) as (Hf & Hc & Hw).
  do 3 (split; [done|]). intros q Hq.
  unfold loadSessionStore, loadFromDisk.
  repeat case_match; simpl; try done;
    rewrite ?lookup_insert_ne by done; rewrite ?lookup_delete_ne by done; done.
Qed.

(** X3.  A save is visible to the next load: it drops the path's cache
    entry, so the load that follows reads the file just written, with or
    without skipCache. *)
Theorem load_after_save_reads_written_file (p : string) (sc : bool)
    (store : gmap string JsVal) (w : World) :
  files (save p store w) !! p
    = Some (mkFile (Json (jsonRoundtrip
              (JObj (normalizeSessionStore normalizeSessionDeliveryFields store))))
              (clock w)) /\
  cache (save p store w) !! p = None /\
  (load p sc (save p store w)).1 = migrateEntry <$> readStoreFile (save p store w) p.
Proof.
  split; [|split].
  - simpl. by rewrite lookup_insert_eq.
  - simpl. apply lookup_delete_eq.
  - rewrite (load_miss ttl isCacheEnabled p sc); [apply fromDisk_store|].
    right. simpl. apply lookup_delete_eq.
Qed.

Lemma prop_num_inv (v : JsVal) (k : string) (x : Z) :
  prop v k = JNum x -> exists rec, v = JObj rec /\ rec !! k = Some (JNum x).
Proof.
  destruct v; simpl; try discriminate. intros H. eexists. split; [done|].
  destruct (fields !! k); simpl in H; [by subst|discriminate].
Qed.

(** X4.  A numeric property of a saved entry outside the delivery and
    legacy names is read back by the next load; in particular
    readSessionUpdatedAt returns the updatedAt just saved. *)
Theorem readSessionUpdatedAt_after_save (p key : string)
    (store rec : gmap string JsVal) (x : Z) (w : World) :
  store !! key = Some (JObj rec) ->
  rec !! "updatedAt" = Some (JNum x) ->
  (readSessionUpdatedAt ttl isCacheEnabled p key (save p store w)).1 = JNum x.
Proof.
  intros Hkey Hx. unfold readSessionUpdatedAt.
  destruct (load p false (save p store w)) as [loaded w'] eqn:Hload. simpl.
  assert (Hl : loaded = migrateEntry <$> readStoreFile (save p store w) p).
  { destruct (load_after_save_reads_written_file p false store w) as (_ & _ & H).
    by rewrite Hload in H. }
  pose proof (save_entry_prop normalizeSessionDeliveryFields p key "updatedAt"
                store rec x w Hkey Hx) as Hsaved.
  apply prop_num_inv in Hsaved as (rec' & Hfield & Hrec'); try done.
  unfold field in Hfield.
  destruct (readStoreFile (save p store w) p !! key) as [v|] eqn:Hv;
    simpl in Hfield; [|done]. subst v.
  subst loaded. unfold field at 1. rewrite lookup_fmap, Hv. simpl.
  rewrite migrateRoom_other, migrateLastProvider_other, migrateProvider_other by done.
  by rewrite Hrec'.
Qed.

(** *** The lock *)

(** X6.  A sidecar older than staleMs is evicted: the caller acquires the
    lock on its second attempt, without sleeping. *)
Theorem acquireLock_evicts_stale_lock (fuel : nat) (lockPath : string)
    (holder : FileNode) (w : World) :
  files w !! lockPath = Some holder ->
  staleMs < clock w - mtimeMs holder ->
  acquireLock pid (S (S fuel)) lockPath (clock w) w
    = Some (Returned tt, withFiles (<[lockPath := lockFile pid w]> (files w)) w).
Proof.
  intros Hheld Hstale. cbn [acquireLock]. rewrite Hheld.
  replace (timeoutMs <? clock w - clock w) with false
    by (symmetry; apply Z.ltb_ge; unfold timeoutMs; lia).
  rewrite (proj2 (Z.ltb_lt _ _) Hstale). simpl.
  rewrite lookup_delete_eq. unfold withFiles, lockFile. simpl.
  by rewrite insert_delete_eq.
Qed.

Lemma acquireLock_waits_out (lockPath : string) (holder : FileNode) (t0 : Z) (n : nat) :
  forall w : World,
    files w !! lockPath = Some holder ->
    t0 + timeoutMs - mtimeMs holder <= staleMs ->
    clock w - t0 <= timeoutMs + pollIntervalMs ->
    (Z.to_nat (timeoutMs + 1 - (clock w - t0)) <= n)%nat ->
    exists t,
      acquireLock pid (S n) lockPath t0 w
        = Some (Threw ("timeout acquiring session store lock: " +:+ lockPath),
                withClock t w) /\
      timeoutMs < t - t0 <= timeoutMs + pollIntervalMs.
Proof.
  induction n as [|n IH]; intros w Hheld Hfresh Hbound Hn.
  - cbn [acquireLock]. rewrite Hheld.
    assert (Hout : timeoutMs < clock w - t0) by lia.
    rewrite (proj2 (Z.ltb_lt _ _) Hout).
    exists (clock w). split; [by destruct w|lia].
  - cbn [acquireLock]. rewrite Hheld.
    destruct (timeoutMs <? clock w - t0) eqn:Ht.
    + apply Z.ltb_lt in Ht. exists (clock w). split; [by destruct w|lia].
    + apply Z.ltb_ge in Ht.
      replace (staleMs <? clock w - mtimeMs holder) with false
        by (symmetry; apply Z.ltb_ge; unfold pollIntervalMs in *; lia).
      destruct (IH (withClock (clock w + pollIntervalMs) w)) as (t & Hacq & Ht').
      * done.
      * done.
      * simpl. unfold pollIntervalMs in *. lia.
      * simpl. unfold pollIntervalMs in *. lia.
      * exists t. split; [|done].
        change (match files (withClock (clock w + pollIntervalMs) w) !! lockPath with
                | Some st0 => _ | None => _ end)
          with (acquireLock pid (S n) lockPath t0
                  (withClock (clock w + pollIntervalMs) w)).
        by rewrite Hacq.
Qed.

(** X7.  A lock that is held, is never released and does not go stale
    within timeoutMs of the first attempt makes a locked operation fail
    with the timeout error, once more than timeoutMs have passed; the
    body is not run and no file, cache entry or write log entry has
    changed.  (The timeout test comes before the staleness test, so the
    hypothesis does not depend on how long the sleeps really take.) *)
Theorem withSessionStoreLock_times_out {T : Type} (n : nat) (p : string)
    (holder : FileNode) (fn : World -> Outcome T * World) (w : World) :
  files w !! lockPathOf p = Some holder ->
  clock w + timeoutMs - mtimeMs holder <= staleMs ->
  timeoutMs + 1 <= Z.of_nat n ->
  exists w',
    withSessionStoreLock pid (S n) p fn w
      = Some (Threw ("timeout acquiring session store lock: " +:+ lockPathOf p), w') /\
    files w' = files w /\ cache w' = cache w /\ writes w' = writes w /\
    timeoutMs < clock w' - clock w.
Proof.
  intros Hheld Hfresh Hn.
  destruct (acquireLock_waits_out (lockPathOf p) holder (clock w) n w Hheld Hfresh)
    as (t & Hacq & Ht).
  - unfold timeoutMs, pollIntervalMs. lia.
  - unfold timeoutMs in *. lia.
  - exists (withClock t w). split; [|simpl; repeat split; try done; lia].
    unfold withSessionStoreLock. by rewrite Hacq.
Qed.

(** X8.  With the sidecar free, a locked operation runs its body with
    the sidecar in place and removes it afterwards, also when the body
    throws. *)
Theorem withSessionStoreLock_releases {T : Type} (fuel : nat) (p : string)
    (fn : World -> Outcome T * World) (w : World) :
  files w !! lockPathOf p = None ->
  let locked := withFiles (<[lockPathOf p := lockFile pid w]> (files w)) w in
  files locked !! lockPathOf p = Some (lockFile pid w) /\
  exists w',
    withSessionStoreLock pid (S fuel) p fn w = Some ((fn locked).1, w') /\
    files w' !! lockPathOf p = None.
Proof.
  intros Hfree locked. split; [apply lookup_insert_eq|].
  unfold withSessionStoreLock. rewrite acquireLock_free by done.
  fold locked. destruct (fn locked) as [r w2]. eexists. split; [done|].
  simpl. apply lookup_delete_eq.
Qed.

(** *** Transactions *)

(** The world a transaction leaves: the file written from the mutated
    disk content, the path's cache entry dropped, the write logged, the
    sidecar gone. *)
Lemma updateSessionStore_result {T : Type} (fuel : nat) (p : string)
    (mutator : gmap string JsVal -> T * gmap string JsVal) (w : World) :
  files w !! lockPathOf p = None ->
  transact (S fuel) p mutator w
  = Some (Returned (mutator (migrateEntry <$> readStoreFile w p)).1,
          mkWorld
            (<[p := mkFile (Json (jsonRoundtrip (JObj (normalizeSessionStore
                       normalizeSessionDeliveryFields
                       (mutator (migrateEntry <$> readStoreFile w p)).2))))
                     (clock w)]> (files w))
            (delete p (cache w)) (clock w) (writes w ++ [p])).
Proof.
  intros Hfree.
  unfold updateSessionStore, withSessionStoreLock.
  rewrite acquireLock_free by done.
  rewrite load_skipCache, readStoreFile_other by apply lockPathOf_ne.
  destruct (mutator (migrateEntry <$> readStoreFile w p)) as [r store'] eqn:Hm.
  simpl. do 2 f_equal. unfold withFiles. simpl. f_equal.
  rewrite delete_insert_ne by apply lockPathOf_ne.
  rewrite delete_insert_eq. by rewrite delete_id.
Qed.

(** X9.  Two transactions in a row: the second mutator is handed what
    the first one wrote (as the file stores it), never an older
    snapshot. *)
Theorem updateSessionStore_sees_previous_write {T U : Type} (f1 f2 : nat) (p : string)
    (m1 : gmap string JsVal -> T * gmap string JsVal)
    (m2 : gmap string JsVal -> U * gmap string JsVal) (w : World) :
  files w !! lockPathOf p = None ->
  exists w1 w2,
    transact (S f1) p m1 w
      = Some (Returned (m1 (migrateEntry <$> readStoreFile w p)).1, w1) /\
    JObj (readStoreFile w1 p)
      = jsonRoundtrip (JObj (normalizeSessionStore normalizeSessionDeliveryFields
          (m1 (migrateEntry <$> readStoreFile w p)).2)) /\
    transact (S f2) p m2 w1
      = Some (Returned (m2 (migrateEntry <$> readStoreFile w1 p)).1, w2).
Proof.
  intros Hfree.
  eexists _, _. split; [by apply updateSessionStore_result|]. split.
  - unfold readStoreFile. simpl. by rewrite lookup_insert_eq.
  - apply updateSessionStore_result. simpl.
    rewrite lookup_insert_ne; [done|]. intros H. by apply (lockPathOf_ne p).
Qed.

(** *** Entries that are not there *)


Variable deriveSessionMetaPatch :
  JsVal -> string -> JsVal -> JsVal -> option (gmap string JsVal).


(** [inherited name] is [Object.prototype[name]]. *)
Variable inherited : string -> JsVal.

(** X11.  recordSessionMetaFromInbound leaves the store as it loaded it
    when no metadata patch is derived, and when createIfMissing is false
    and [store[sessionKey]] is falsy: the file written back is the
    loaded store (normalized), so no entry is created under any name.
    In the first case it returns [store[sessionKey] ?? null], in the
    second null.  [store[sessionKey]] is the own property or else what
    the prototype gives. *)
Theorem recordSessionMetaFromInbound_creates_nothing (fuel : nat) (p key : string)
    (ctx groupResolution : JsVal) (createIfMissing : bool) (w : World) :
  let disk := migrateEntry <$> readStoreFile w p in
  let existing := member inherited disk key in
  files w !! lockPathOf p = None ->
  deriveSessionMetaPatch ctx key existing groupResolution = None
    \/ (truthy existing = false /\ createIfMissing = false) ->
  exists w',
    recordSessionMetaFromInbound ttl isCacheEnabled normalizeSessionDeliveryFields
      pid deriveSessionMetaPatch inherited (S fuel) p key ctx groupResolution
      createIfMissing w
      = Some (Returned
                (match deriveSessionMetaPatch ctx key existing groupResolution with
                 | None => nullish existing JNull
                 | Some _ => JNull
                 end), w') /\
    JObj (readStoreFile w' p)
      = jsonRoundtrip (JObj (normalizeSessionStore normalizeSessionDeliveryFields disk)) /\
    (forall k, readStoreFile w p !! k = None -> readStoreFile w' p !! k = None) /\
    writes w' = writes w ++ [p].
Proof.
  intros disk existing Hfree Hwhy.
  unfold recordSessionMetaFromInbound. rewrite updateSessionStore_result by done.
  fold disk.
  assert (Hm : recordMetaMutator deriveSessionMetaPatch inherited key ctx
                 groupResolution createIfMissing disk
               = (match deriveSessionMetaPatch ctx key existing groupResolution with
                  | None => nullish existing JNull
                  | Some _ => JNull
                  end, disk)).
  { unfold recordMetaMutator. fold existing.
    destruct (deriveSessionMetaPatch ctx key existing groupResolution) eqn:Hd;
      [|done].
    destruct Hwhy as [Hnone | [-> ->]]; [congruence|done]. }
  rewrite Hm. simpl. eexists. split; [done|].
  split; [|split; [|done]].
  - unfold readStoreFile. simpl. by rewrite lookup_insert_eq.
  - intros k Hk. unfold readStoreFile at 1. simpl. rewrite lookup_insert_eq. simpl.
    rewrite lookup_omap. unfold normalizeSessionStore, disk.
    by rewrite !lookup_fmap, Hk.
Qed.

End WithCollaborators.

(** *** The properties above on concrete worlds *)

Import Scenarios MoreScenarios.

Lemma loadSessionStore_fail_open_witness :
  (loadSessionStore ttl cacheOn storePath false brokenWorld).1 = ∅.
Proof.
  refine (loadSessionStore_fail_open ttl cacheOn storePath false brokenWorld _ _).
  - right. reflexivity.
  - intros m t. vm_compute. discriminate.
Defined.


Lemma readSessionUpdatedAt_after_save_witness :
  (readSessionUpdatedAt ttl cacheOn storePath "b"
     (saveSessionStoreUnlocked plainDeliveryFields storePath
        {[ "b" := entryB ]} coldWorld)).1 = JNum 200.
Proof.
  refine (readSessionUpdatedAt_after_save ttl cacheOn plainDeliveryFields storePath "b"
            {[ "b" := entryB ]}
            {[ "sessionId" := JStr "s-b"; "updatedAt" := JNum 200 ]} 200 coldWorld _ _).
  - vm_compute; reflexivity.
  - vm_compute; reflexivity.
Defined.

Lemma acquireLock_evicts_stale_lock_witness :
  acquireLock 7 2 (lockPathOf storePath) (clock staleLockWorld) staleLockWorld
  = Some (Returned tt,
          withFiles (<[lockPathOf storePath := lockFile 7 staleLockWorld]>
                       (files staleLockWorld)) staleLockWorld).
Proof.
  refine (acquireLock_evicts_stale_lock 7 0 (lockPathOf storePath)
            (fileOf {[ "pid" := JNum 99; "startedAt" := JNum 1000 ]} 1000)
            staleLockWorld _ _).
  - vm_compute; reflexivity.
  - vm_compute; reflexivity.
Defined.

Lemma withSessionStoreLock_times_out_witness :
  exists w',
    withSessionStoreLock 7 (S (Z.to_nat 10001)) storePath failingBody heldLockWorld
      = Some (Threw ("timeout acquiring session store lock: " +:+ lockPathOf storePath),
              w') /\
    files w' = files heldLockWorld /\ cache w' = cache heldLockWorld /\
    writes w' = writes heldLockWorld /\
    timeoutMs < clock w' - clock heldLockWorld.
Proof.
  refine (withSessionStoreLock_times_out 7 (Z.to_nat 10001) storePath
            (fileOf {[ "pid" := JNum 99; "startedAt" := JNum 1000 ]} 1000)
            failingBody heldLockWorld _ _ _).
  - vm_compute; reflexivity.
  - vm_compute; discriminate.
  - vm_compute; discriminate.
Defined.

Lemma withSessionStoreLock_releases_witness :
  exists w',
    withSessionStoreLock 7 1 storePath failingBody coldWorld
      = Some (Threw "disk full", w') /\
    files w' !! lockPathOf storePath = None.
Proof.
  refine (proj2 (withSessionStoreLock_releases 7 0 storePath failingBody coldWorld _)).
  vm_compute; reflexivity.
Defined.

Lemma updateSessionStore_sees_previous_write_witness :
  exists w1 w2,
    updateSessionStore ttl cacheOn plainDeliveryFields 7 1 storePath addB coldWorld
      = Some (Returned tt, w1) /\
    JObj (readStoreFile w1 storePath)
      = jsonRoundtrip (JObj (normalizeSessionStore plainDeliveryFields
          (addB (migrateEntry <$> readStoreFile coldWorld storePath)).2)) /\
    updateSessionStore ttl cacheOn plainDeliveryFields 7 1 storePath seesB w1
      = Some (Returned (seesB (migrateEntry <$> readStoreFile w1 storePath)).1, w2).
Proof.
  refine (updateSessionStore_sees_previous_write ttl cacheOn plainDeliveryFields 7
            0 0 storePath addB seesB coldWorld _).
  vm_compute; reflexivity.
Defined.


Lemma recordSessionMetaFromInbound_creates_nothing_witness :
  exists w',
    recordSessionMetaFromInbound ttl cacheOn plainDeliveryFields 7 thinkHighPatch
      prototypeOf 1 storePath "zz" JUndefined JUndefined false coldWorld
      = Some (Returned JNull, w') /\
    readStoreFile w' storePath !! "zz" = None.
Proof.
  destruct (recordSessionMetaFromInbound_creates_nothing ttl cacheOn plainDeliveryFields
              7 thinkHighPatch prototypeOf 0 storePath "zz" JUndefined JUndefined
              false coldWorld) as (w' & Hrun & _ & Hkeys & _).
  - reflexivity.
  - right. split; reflexivity.
  - exists w'. split; [exact Hrun|]. apply Hkeys. reflexivity.
Defined.

End StoreMore.

(** ** Session resolver: which id and which key *)

Module ResolverMore.
Import Js SessionStore SessionResolver SessionKeys.

Local Open Scope Z_scope.

Section WithCollaborators.

Variables SessionCfg ResetType ChannelReset ResetPolicy : Type.
Variable resolveSessionResetType : option string -> ResetType.
Variable resolveChannelResetConfig : SessionCfg -> JsVal -> ChannelReset.
Variable resolveSessionResetPolicy :
  SessionCfg -> ResetType -> ChannelReset -> ResetPolicy.
Variable evaluateSessionFreshness : JsVal -> Z -> ResetPolicy -> bool.
Variable normalizeThinkLevel : JsVal -> JsVal.
Variable normalizeVerboseLevel : JsVal -> JsVal.

Local Abbreviation policyFor :=
  (resolvePolicy SessionCfg ResetType ChannelReset ResetPolicy resolveSessionResetType
     resolveChannelResetConfig resolveSessionResetPolicy).

Local Abbreviation sessionFresh := (sessionFresh ResetPolicy evaluateSessionFreshness).

Local Abbreviation resolve :=
  (resolveSession SessionCfg ResetType ChannelReset ResetPolicy resolveSessionResetType
     resolveChannelResetConfig resolveSessionResetPolicy evaluateSessionFreshness
     normalizeThinkLevel normalizeVerboseLevel).

(** X12.  A requested session id that is not blank always wins: it is
    the resolved id (trimmed) whatever the store holds, and the session
    is not new. *)
Theorem resolveSession_requested_id_wins (cfg : SessionCfg) (id : string)
    (key : option string) (store : gmap string JsVal) (path : string)
    (now : Z) (uuid : string) :
  trim id ≠ "" ->
  sessionId (resolve cfg (Some id) key store path now uuid) = JStr (trim id) /\
  isNewSession (resolve cfg (Some id) key store path now uuid) = false.
Proof.
  intros Hid. unfold resolveSession. simpl.
  assert (Hne : String.eqb (trim id) "" = false) by by apply String.eqb_neq.
  rewrite Hne. simpl. split; [done|].
  assert (Hid' : String.eqb id "" = false).
  { apply String.eqb_neq. intros ->. by apply Hid. }
  rewrite Hid'. simpl. apply andb_false_r.
Qed.


(** X14.  A requested id that is not empty but blank is not used as the
    id, yet the session is reported as not new: with an entry that is
    not fresh the id is generated all the same. *)
Theorem resolveSession_blank_id (cfg : SessionCfg) (id : string)
    (key : option string) (store : gmap string JsVal) (path : string)
    (now : Z) (uuid : string) :
  id ≠ "" -> trim id = "" ->
  isNewSession (resolve cfg (Some id) key store path now uuid) = false /\
  (sessionFresh (lookupEntry key store) now
     (policyFor cfg key (lookupEntry key store)) = false ->
   sessionId (resolve cfg (Some id) key store path now uuid) = JStr uuid).
Proof.
  intros Hid Hblank. unfold resolveSession. simpl. rewrite Hblank. simpl.
  apply String.eqb_neq in Hid. rewrite Hid. simpl. split.
  - apply andb_false_r.
  - intros H. by rewrite H.
Qed.

End WithCollaborators.

Section WithRouting.

Variables Cfg MainKey AgentId : Type.
Variable sessionScope : Cfg -> option string.
Variable mainKeyOf : Cfg -> MainKey.
Variable resolveExplicitAgentSessionKey : Cfg -> option string -> option string.
Variable resolveAgentIdFromSessionKey : option string -> AgentId.
Variable resolveStorePath : Cfg -> AgentId -> string.
Variable resolveSessionKey : string -> string -> MainKey -> string.
Variable objectKeys : gmap string JsVal -> list string.
Variable ttl : Z.
Variable isCacheEnabled : Z -> bool.

Local Abbreviation keyFor :=
  (resolveSessionKeyForRequest Cfg MainKey AgentId sessionScope mainKeyOf
     resolveExplicitAgentSessionKey resolveAgentIdFromSessionKey resolveStorePath
     resolveSessionKey objectKeys ttl isCacheEnabled).

(** An explicit session key that is not blank is the resolved key,
    trimmed, whatever recipient or session id comes with it; the store is
    the one of that key's agent. *)
Theorem resolveSessionKeyForRequest_explicit_key (cfg : Cfg) (opts : KeyOpts)
    (k : string) (w : World) :
  ko_sessionKey opts = Some k -> trim k ≠ "" ->
  kr_sessionKey (keyFor cfg opts w).1 = Some (trim k) /\
  kr_storePath (keyFor cfg opts w).1
    = resolveStorePath cfg (resolveAgentIdFromSessionKey (Some (trim k))) /\
  kr_sessionStore (keyFor cfg opts w).1
    = (loadSessionStore ttl isCacheEnabled
         (resolveStorePath cfg (resolveAgentIdFromSessionKey (Some (trim k))))
         false w).1.
Proof.
  intros Hk Hne. unfold resolveSessionKeyForRequest. rewrite Hk. simpl.
  apply String.eqb_neq in Hne.
  assert (He : orElse (Some (trim k))
                 (resolveExplicitAgentSessionKey cfg (ko_agentId opts))
               = Some (trim k)).
  { unfold orElse, present. by rewrite Hne. }
  rewrite He.
  destruct (loadSessionStore _ _ _ _ _) as [store w'].
  unfold present. rewrite Hne. done.
Qed.

(** X15.  Without an explicit key, a session id can replace the derived
    key only by the key of an entry that has that session id; a derived
    key whose entry already has the id is kept. *)
Theorem resolveSessionKeyForRequest_by_id (cfg : Cfg) (opts : KeyOpts)
    (id : string) (w : World) :
  ko_sessionKey opts = None ->
  resolveExplicitAgentSessionKey cfg (ko_agentId opts) = None ->
  ko_sessionId opts = Some id ->
  let derived :=
    if present (trim <$> ko_to opts)
    then Some (resolveSessionKey (default "per-sender" (sessionScope cfg))
                 (default "" (ko_to opts)) (mainKeyOf cfg))
    else None in
  let r := (keyFor cfg opts w).1 in
  (kr_sessionKey r = derived \/
   exists found, kr_sessionKey r = Some found /\
                 entryHasId (kr_sessionStore r) id found = true) /\
  (forall d, derived = Some d -> d ≠ "" ->
             entryHasId (kr_sessionStore r) id d = true ->
             kr_sessionKey r = Some d).
Proof.
  intros Hk He Hid derived r. unfold r, resolveSessionKeyForRequest.
  rewrite Hk, He, Hid. simpl. unfold orElse. simpl.
  destruct (loadSessionStore _ _ _ _ _) as [store w']. simpl.
  fold derived. split.
  - destruct (negb (String.eqb id "") && _) eqn:Hc; [|by left].
    destruct (find (entryHasId store id) (objectKeys store)) as [found|] eqn:Hf;
      [|by left].
    destruct (String.eqb found ""); [by left|]. right.
    exists found. split; [done|]. by apply find_some in Hf as [_ Hf].
  - intros d Hd Hne Hhas. rewrite Hd. simpl. rewrite Hhas. simpl.
    apply String.eqb_neq in Hne. rewrite Hne. simpl.
    by rewrite andb_false_r.
Qed.

End WithRouting.

(** *** The properties above on concrete requests *)

Import Scenarios MoreScenarios.

Lemma resolveSession_requested_id_wins_witness :
  sessionId (resolveSession unit unit unit Z resetTypeOf channelResetOf policyOf
               freshWithin                levelOf levelOf tt (Some " s-new ") (Some "main") boundaryStore
               storePath 5000 "fresh-uuid") = JStr "s-new".
Proof.
  refine (proj1 (resolveSession_requested_id_wins unit unit unit Z resetTypeOf
                   channelResetOf policyOf freshWithin levelOf levelOf tt " s-new " (Some "main")
                   boundaryStore storePath 5000 "fresh-uuid" _)).
  vm_compute; discriminate.
Defined.


Lemma resolveSession_blank_id_witness :
  isNewSession (resolveSession unit unit unit Z resetTypeOf channelResetOf policyOf
               freshWithin                   levelOf levelOf tt (Some " ") (Some "main") boundaryStore
                  storePath 5000 "fresh-uuid") = false /\
  sessionId (resolveSession unit unit unit Z resetTypeOf channelResetOf policyOf
               freshWithin                levelOf levelOf tt (Some " ") (Some "main") boundaryStore
               storePath 5000 "fresh-uuid") = JStr "fresh-uuid".
Proof.
  destruct (resolveSession_blank_id unit unit unit Z resetTypeOf channelResetOf policyOf
              freshWithin levelOf levelOf tt " " (Some "main") boundaryStore storePath 5000
              "fresh-uuid") as [Hnew Hid].
  - vm_compute; discriminate.
  - vm_compute; reflexivity.
  - split; [exact Hnew|]. apply Hid. vm_compute; reflexivity.
Defined.

Lemma resolveSessionKeyForRequest_by_id_witness :
  exists found,
    kr_sessionKey
      (resolveSessionKeyForRequest unit unit unit scopeOf mainKeyOf explicitKeyOf
         agentIdOf storePathOf keyOfSender keysOf ttl cacheOn tt byIdOpts coldWorld).1
    = Some found /\
    entryHasId
      (kr_sessionStore
         (resolveSessionKeyForRequest unit unit unit scopeOf mainKeyOf explicitKeyOf
            agentIdOf storePathOf keyOfSender keysOf ttl cacheOn tt byIdOpts
            coldWorld).1) "s-a" found = true.
Proof.
  destruct (resolveSessionKeyForRequest_by_id unit unit unit scopeOf mainKeyOf
              explicitKeyOf agentIdOf storePathOf keyOfSender keysOf ttl cacheOn
              tt byIdOpts "s-a" coldWorld) as [[Hderived | Hfound] _].
  - reflexivity.
  - reflexivity.
  - reflexivity.
  - vm_compute in Hderived. discriminate Hderived.
  - exact Hfound.
Defined.

End ResolverMore.

(** ** Model fallback: the other ways a run ends *)

Module FallbackMore.
Import Js ModelFallback FallbackFacts.

Section WithCallbacks.

Context {T St AuthStore : Type}.
Variable isFailoverError : Thrown -> bool.
Variable isTimeoutError : Thrown -> bool.
Variable coerceToFailoverError : Thrown -> ModelCandidate -> option Thrown.
Variable describeFailoverError : Thrown -> Described.
Variable resolveAuthProfileOrder : AuthStore -> string -> list string.
Variable isProfileInCooldown : AuthStore -> string -> St -> bool.
Variable authStore : option AuthStore.
Variable run : string -> string -> St -> RunOutcome T * St.
Variable onError : option (ErrorNotice -> St -> option Thrown * St).

Local Abbreviation loop :=
  (fallbackLoop isFailoverError isTimeoutError coerceToFailoverError
     describeFailoverError resolveAuthProfileOrder isProfileInCooldown
     authStore run onError).
Local Abbreviation fallback :=
  (runWithModelFallback isFailoverError isTimeoutError coerceToFailoverError
     describeFailoverError resolveAuthProfileOrder isProfileInCooldown
     authStore run onError).
Local Abbreviation skip :=
  (cooldownSkip resolveAuthProfileOrder isProfileInCooldown authStore).
Local Abbreviation normalize := (normalizeError coerceToFailoverError).
Local Abbreviation attemptOf := (failedAttempt describeFailoverError).
Local Abbreviation rethrowAbort := (shouldRethrowAbort isFailoverError isTimeoutError).
Local Abbreviation observe := (notify onError).
Local Abbreviation observed := (notifyLog onError).

(** X16.  An error that is not classified as failover-eligible ends the
    run at once: the caught error itself is thrown (not its coerced
    form), the observer is not called and no later candidate is run. *)
Theorem unclassified_error_is_rethrown (pre post : list ModelCandidate)
    (c : ModelCandidate) (st0 st st1 : St) (attempts : list FallbackAttempt)
    (lastError : option Thrown) (log : list Event) (err : Thrown) :
  loop (length (pre ++ c :: post)) 0 pre [] None st0 []
    = Exhausted attempts lastError st log ->
  skip c st = false ->
  run (provider c) (model c) st = (RunThrow err, st1) ->
  rethrowAbort err = false ->
  isFailoverError (normalize err c) = false ->
  fallback (pre ++ c :: post) st0 = (Failure err, st1, log ++ [EvRun c]).
Proof.
  intros Hpre Hskip Hrun Habort Hclass.
  unfold runWithModelFallback. rewrite loop_app, Hpre. simpl.
  by rewrite Hskip, Hrun, Habort, Hclass.
Qed.

(** X17.  An observer that throws ends the run with the observer's
    error, whatever the error of the model was; no later candidate is
    run. *)
Theorem observer_error_propagates (pre post : list ModelCandidate)
    (c : ModelCandidate) (st0 st st1 st2 : St) (attempts : list FallbackAttempt)
    (lastError : option Thrown) (log : list Event) (err thrown : Thrown) :
  let total := length (pre ++ c :: post) in
  let notice :=
    mkNotice (provider c) (model c) (normalize err c) (length pre + 1) total in
  loop total 0 pre [] None st0 [] = Exhausted attempts lastError st log ->
  skip c st = false ->
  run (provider c) (model c) st = (RunThrow err, st1) ->
  rethrowAbort err = false ->
  isFailoverError (normalize err c) = true ->
  observe notice st1 = (Some thrown, st2) ->
  fallback (pre ++ c :: post) st0
  = (Failure thrown, st2, (log ++ [EvRun c]) ++ observed notice).
Proof.
  intros total notice Hpre Hskip Hrun Habort Hclass Hobs.
  unfold runWithModelFallback. fold total. rewrite loop_app, Hpre.
  rewrite Nat.add_0_l. subst notice. generalize dependent total.
  intros total _ Hobs. simpl.
  by rewrite Hskip, Hrun, Habort, Hclass, Hobs.
Qed.

Lemma loop_all_skipped (total : nat) (candidates : list ModelCandidate) (st : St) :
  forall (i : nat) (attempts : list FallbackAttempt) (lastError : option Thrown)
         (log : list Event),
  Forall (fun c => skip c st = true) candidates ->
  loop total i candidates attempts lastError st log
  = Exhausted (attempts ++ (cooldownAttempt <$> candidates)) lastError st log.
Proof.
  induction candidates as [|c rest IH]; intros i attempts lastError log Hall.
  - simpl. by rewrite app_nil_r.
  - apply Forall_cons in Hall as [Hc Hrest]. simpl. rewrite Hc.
    rewrite IH by done. by rewrite <- app_assoc.
Qed.

(** X18.  When every candidate is in cooldown, [run] is never called
    and the run fails with the aggregate error listing one cooldown
    attempt per candidate, without a cause. *)
Theorem all_in_cooldown_calls_nothing (candidates : list ModelCandidate) (st : St) :
  Forall (fun c => skip c st = true) candidates ->
  fallback candidates st
  = (Failure (aggregateError (cooldownAttempt <$> candidates) None (length candidates)),
     st, []).
Proof.
  intros Hall. unfold runWithModelFallback.
  by rewrite loop_all_skipped.
Qed.

(** X19.  When the candidates are used up, the attempts name the
    candidates one for one, in candidate order. *)
Theorem attempts_follow_candidates (total : nat) (candidates : list ModelCandidate) :
  forall (i : nat) (attempts attempts' : list FallbackAttempt)
         (lastError lastError' : option Thrown) (st st' : St) (log log' : list Event),
  loop total i candidates attempts lastError st log
    = Exhausted attempts' lastError' st' log' ->
  (fun a => (a_provider a, a_model a)) <$> attempts'
  = ((fun a => (a_provider a, a_model a)) <$> attempts)
    ++ ((fun c => (provider c, model c)) <$> candidates).
Proof.
  induction candidates as [|c rest IH]; intros i attempts attempts' lastError
    lastError' st st' log log' H.
  - simpl in H. injection H as <- _ _ _. by rewrite app_nil_r.
  - apply loop_exhausted_inv in H as [[_ H] | [_ (err & st1 & st2 & _ & _ & _ & _ & H)]];
      apply IH in H; rewrite H, fmap_app; simpl; by rewrite <- app_assoc.
Qed.

End WithCallbacks.

(** *** The properties above on scripted runs *)

Import Scenarios MoreScenarios.

Lemma unclassified_error_is_rethrown_witness :
  fallbackWith None ([candidate "a"] ++ candidate "v" :: [candidate "ok"])
  = (Failure (plainError "invalid request"), 2%nat,
     [EvRun (candidate "a")] ++ [EvRun (candidate "v")]).
Proof.
  eapply (unclassified_error_is_rethrown isFailover isTimeout coerce describe
            profilesOf inCooldown None scriptedRun None
            [candidate "a"] [candidate "ok"] (candidate "v") 0%nat).
  - vm_compute; reflexivity.
  - vm_compute; reflexivity.
  - vm_compute; reflexivity.
  - vm_compute; reflexivity.
  - vm_compute; reflexivity.
Defined.

Lemma observer_error_propagates_witness :
  exists log,
    runWithModelFallback isFailover isTimeout coerce describe profilesOf inCooldown
      None scriptedRun (Some brokenObserver)
      ([] ++ candidate "a" :: [candidate "ok"]) 0%nat
    = (Failure (plainError "observer failed"), 1%nat, log) /\
    runsOf log = [candidate "a"].
Proof.
  eexists. split.
  - eapply (observer_error_propagates isFailover isTimeout coerce describe
              profilesOf inCooldown None scriptedRun (Some brokenObserver)
              [] [candidate "ok"] (candidate "a") 0%nat).
    + vm_compute; reflexivity.
    + vm_compute; reflexivity.
    + vm_compute; reflexivity.
    + vm_compute; reflexivity.
    + vm_compute; reflexivity.
    + vm_compute; reflexivity.
  - vm_compute; reflexivity.
Defined.

Lemma all_in_cooldown_calls_nothing_witness :
  fallbackWith (Some tt) [candidate "cool"]
  = (Failure (aggregateError (cooldownAttempt <$> [candidate "cool"]) None 1),
     0%nat, []).
Proof.
  refine (all_in_cooldown_calls_nothing isFailover isTimeout coerce describe
            profilesOf inCooldown (Some tt) scriptedRun None [candidate "cool"] 0%nat _).
  apply Forall_cons. split; [vm_compute; reflexivity|apply Forall_nil_2].
Defined.

Lemma attempts_follow_candidates_witness :
  exists attempts lastError st log,
    loopWith None 2 0 [candidate "a"; candidate "b"] [] None 0%nat []
      = Exhausted attempts lastError st log /\
    (fun a => (a_provider a, a_model a)) <$> attempts = [("a", "m1"); ("b", "m1")].
Proof.
  eexists _, _, _, _. split.
  - vm_compute; reflexivity.
  - refine (attempts_follow_candidates isFailover isTimeout coerce describe
              profilesOf inCooldown None scriptedRun None
              2 [candidate "a"; candidate "b"] 0 [] _ None _ 0%nat _ [] _ _).
    vm_compute; reflexivity.
Defined.

End FallbackMore.

(** ** The image-model fallback *)

Module ImageFacts.
Import Js ModelFallback ImageFallback.

Section WithCallbacks.

Context {T St : Type}.
Variable isFailoverError : Thrown -> bool.
Variable isTimeoutError : Thrown -> bool.
Variable stringOf : Thrown -> string.
Variable run : string -> string -> St -> RunOutcome T * St.
Variable onError : option (ErrorNotice -> St -> option Thrown * St).

Local Abbreviation loop :=
  (imageLoop isFailoverError isTimeoutError stringOf run onError).
Local Abbreviation fallback :=
  (runWithImageModelFallback isFailoverError isTimeoutError stringOf run onError).
Local Abbreviation rethrowAbort := (shouldRethrowAbort isFailoverError isTimeoutError).

(** X20.  The image loop rethrows from inside the loop only for a
    cancellation or for an error of the observer: without an observer,
    whatever it rethrows is an AbortError that is not a timeout, thrown
    by the last run it made.  No other error stops it early. *)
Theorem imageLoop_rethrows_only_aborts (total : nat) (candidates : list ModelCandidate) :
  forall (i : nat) (attempts attempts' : list FallbackAttempt)
         (lastError : option Thrown) (st st' : St) (log log' : list Event)
         (thrown : Thrown),
  onError = None ->
  loop total i candidates attempts lastError st log
    = Rethrown thrown attempts' st' log' ->
  rethrowAbort thrown = true /\
  exists c st0,
    c ∈ candidates /\ last log' = Some (EvRun c) /\
    run (provider c) (model c) st0 = (RunThrow thrown, st').
Proof.
  intros i attempts attempts' lastError st st' log log' thrown Hno.
  revert i attempts lastError st log. rewrite Hno.
  induction candidates as [|c rest IH]; intros i attempts lastError st log H.
  - discriminate.
  - simpl in H.
    destruct (run (provider c) (model c) st) as [[result|err] st1] eqn:Hrun; [done|].
    destruct (rethrowAbort err) eqn:Ha.
    + injection H as <- _ <- <-. split; [done|].
      exists c, st. split; [apply list_elem_of_here|].
      split; [by rewrite last_snoc|done].
    + apply IH in H as (Hab & c' & st0 & Hin & Hlast & Hthrew).
      split; [done|]. exists c', st0. split; [by apply list_elem_of_further|done].
Qed.

Lemma imageLoop_single (c : ModelCandidate) (st st1 st2 : St) (err : Thrown) :
  run (provider c) (model c) st = (RunThrow err, st1) ->
  rethrowAbort err = false ->
  notify onError (mkNotice (provider c) (model c) err 1 1) st1 = (None, st2) ->
  loop 1 0 [c] [] None st []
  = Exhausted [imageAttempt stringOf c err] (Some err) st2
      ([EvRun c] ++ notifyLog onError (mkNotice (provider c) (model c) err 1 1)).
Proof. intros Hrun Ha Ho. simpl. by rewrite Hrun, Ha, Ho. Qed.

(** X21.  With a single image candidate whose run fails with a truthy
    error that is not a cancellation, runWithImageModelFallback throws
    that very error, unclassified and unwrapped. *)
Theorem image_single_failure_rethrows_caught (c : ModelCandidate)
    (st st1 st2 : St) (err : Thrown) :
  run (provider c) (model c) st = (RunThrow err, st1) ->
  rethrowAbort err = false ->
  thrownTruthy err = true ->
  notify onError (mkNotice (provider c) (model c) err 1 1) st1 = (None, st2) ->
  fallback [c] st
  = (Failure err, st2,
     [EvRun c] ++ notifyLog onError (mkNotice (provider c) (model c) err 1 1)).
Proof.
  intros Hrun Ha Htruthy Ho. unfold runWithImageModelFallback. simpl length.
  rewrite (imageLoop_single c st st1 st2 err Hrun Ha Ho).
  unfold imageExhaustion. simpl. by rewrite Htruthy.
Qed.

End WithCallbacks.

(** *** The properties above on scripted runs *)

Import Scenarios MoreScenarios.

Lemma imageLoop_rethrows_only_aborts_witness :
  shouldRethrowAbort isFailover isTimeout cancelled = true /\
  exists c st0,
    c ∈ [candidate "a"; candidate "x"; candidate "ok"] /\
    last [EvRun (candidate "a"); EvRun (candidate "x")] = Some (EvRun c) /\
    scriptedRun (provider c) (model c) st0 = (RunThrow cancelled, 2%nat).
Proof.
  refine (imageLoop_rethrows_only_aborts isFailover isTimeout messageOf scriptedRun None
            3 [candidate "a"; candidate "x"; candidate "ok"] 0 [] _ None 0%nat _ [] _
            cancelled eq_refl _).
  vm_compute; reflexivity.
Defined.

Lemma image_single_failure_rethrows_caught_witness :
  runWithImageModelFallback isFailover isTimeout messageOf scriptedRun None
    [candidate "a"] 0%nat
  = (Failure rateLimited, 1%nat, [EvRun (candidate "a")] ++ []).
Proof.
  refine (image_single_failure_rethrows_caught isFailover isTimeout messageOf
            scriptedRun None (candidate "a") 0%nat 1%nat 1%nat rateLimited _ _ _ _).
  - vm_compute; reflexivity.
  - vm_compute; reflexivity.
  - vm_compute; reflexivity.
  - vm_compute; reflexivity.
Defined.

End ImageFacts.

(** ** Resolving the fallback candidates *)

Module CandidatesFacts.
Import Js ModelFallback Candidates.

Section WithHelpers.

Variable DEFAULT_PROVIDER : string.
Variable DEFAULT_MODEL : string.
Variable modelKey : string -> string -> string.
Variable parseModelRef : string -> string -> option ModelCandidate.
Variable resolveModelRefFromString : string -> string -> option ModelCandidate.

Local Abbreviation key := (keyOf modelKey).
Local Abbreviation add := (addCandidate modelKey).
Local Abbreviation addRef := (addRaw modelKey resolveModelRefFromString).
Local Abbreviation allowedKeys := (buildAllowedModelKeys modelKey parseModelRef).
Local Abbreviation requested := (requestedCandidate DEFAULT_PROVIDER DEFAULT_MODEL).
Local Abbreviation candidatesOf :=
  (resolveFallbackCandidates DEFAULT_PROVIDER DEFAULT_MODEL modelKey parseModelRef
     resolveModelRefFromString).
Local Abbreviation imageCandidatesOf :=
  (resolveImageFallbackCandidates modelKey parseModelRef resolveModelRefFromString).
Local Abbreviation named c := (provider c <> "" /\ model c <> "").
Local Abbreviation wellFormed acc :=
  (NoDup (key <$> collected acc) /\
   (forall c, c ∈ collected acc -> key c ∈ seen acc) /\
   Forall (fun c => named c) (collected acc)).

(** *** What one call of addCandidate does *)

Lemma addCandidate_cases (allowlist : option (gset string)) (acc : Collected)
    (c : ModelCandidate) (enforce : bool) :
  add allowlist acc c enforce = acc \/
  (add allowlist acc c enforce
     = mkCollected (seen acc ∪ {[ key c ]}) (collected acc ++ [c]) /\
   named c /\ (key c ∉ seen acc) /\
   (enforce = true -> forall allowed, allowlist = Some allowed -> key c ∈ allowed)).
Proof.
  unfold addCandidate.
  destruct (String.eqb (provider c) "") eqn:Hp; [by left|].
  destruct (String.eqb (model c) "") eqn:Hm; [by left|]. simpl.
  case_bool_decide as Hseen; [by left|].
  destruct (enforce && _) eqn:Hallow; [by left|]. right.
  apply String.eqb_neq in Hp, Hm. repeat split; try done.
  intros -> allowed ->. simpl in Hallow.
  apply negb_false_iff in Hallow. by apply bool_decide_eq_true in Hallow.
Qed.

Lemma addCandidate_wellFormed (allowlist : option (gset string)) (acc : Collected)
    (c : ModelCandidate) (enforce : bool) :
  wellFormed acc -> wellFormed (add allowlist acc c enforce).
Proof.
  intros (Hnd & Hseen & Hnamed).
  destruct (addCandidate_cases allowlist acc c enforce)
    as [-> | (-> & Hc & Hnew & _)]; [done|]. simpl.
  split; [|split].
  - rewrite fmap_app. apply NoDup_app. split; [done|]. split.
    + intros k Hk Hk'. apply list_elem_of_singleton in Hk'. subst k.
      apply list_elem_of_fmap in Hk as (c' & Heq & Hin).
      apply Hnew. rewrite Heq. by apply Hseen.
    + apply NoDup_singleton.
  - intros c' Hin. apply elem_of_app in Hin as [Hin | Hin].
    + apply elem_of_union_l. by apply Hseen.
    + apply list_elem_of_singleton in Hin. subst c'.
      apply elem_of_union_r. by apply elem_of_singleton.
  - apply Forall_app. split; [done|]. by apply Forall_singleton.
Qed.

Lemma addRaw_wellFormed (allowlist : option (gset string)) (defaultProvider : string)
    (acc : Collected) (raw : string) (enforce : bool) :
  wellFormed acc -> wellFormed (addRef allowlist defaultProvider acc raw enforce).
Proof.
  intros H. unfold addRaw.
  destruct (resolveModelRefFromString raw defaultProvider); [|done].
  by apply addCandidate_wellFormed.
Qed.

Lemma addAll_wellFormed (allowlist : option (gset string)) (defaultProvider : string)
    (raws : list string) :
  forall acc,
  wellFormed acc ->
  wellFormed (foldl (fun acc raw => addRef allowlist defaultProvider acc raw true)
                acc raws).
Proof.
  induction raws as [|raw raws IH]; intros acc H; [done|].
  simpl. apply IH. by apply addRaw_wellFormed.
Qed.

Lemma empty_wellFormed : wellFormed (mkCollected ∅ []).
Proof. simpl. split; [apply NoDup_nil_2|]. split; [|done]. intros c Hc. by apply elem_of_nil in Hc. Qed.

(** X22.  The candidate lists never name a model twice (by model key),
    and every candidate has a provider and a model: this holds for the
    text-model list and for the image-model list alike. *)
Theorem candidates_distinct_and_named (cfg : ModelConfig)
    (requestedProvider requestedModel defaultProvider : string)
    (fallbacksOverride : option (list string)) (modelOverride : option string) :
  (NoDup (key <$> candidatesOf cfg requestedProvider requestedModel fallbacksOverride) /\
   Forall (fun c => named c)
     (candidatesOf cfg requestedProvider requestedModel fallbacksOverride)) /\
  (NoDup (key <$> imageCandidatesOf cfg defaultProvider modelOverride) /\
   Forall (fun c => named c) (imageCandidatesOf cfg defaultProvider modelOverride)).
Proof.
  split.
  - unfold resolveFallbackCandidates.
    match goal with |- NoDup (_ <$> collected ?acc) /\ _ =>
      assert (H : wellFormed acc) end; [|by destruct H as (? & _ & ?)].
    assert (H1 : forall acc raws, wellFormed acc ->
      wellFormed (foldl (fun acc raw => addRef
        (allowedKeys cfg (default DEFAULT_PROVIDER (provider <$> configured cfg)))
        (default DEFAULT_PROVIDER (provider <$> configured cfg)) acc raw true) acc raws))
      by (intros; by apply addAll_wellFormed).
    destruct fallbacksOverride as [override|]; [|destruct (configured cfg)]; simpl;
      repeat (apply addCandidate_wellFormed || apply H1); apply empty_wellFormed.
  - unfold resolveImageFallbackCandidates.
    match goal with |- NoDup (_ <$> collected ?acc) /\ _ =>
      assert (H : wellFormed acc) end; [|by destruct H as (? & _ & ?)].
    apply addAll_wellFormed.
    destruct modelOverride as [raw|]; [destruct (String.eqb (trim raw) "")|];
      try destruct (imagePrimary cfg) as [primary|];
      try destruct (String.eqb (trim primary) "");
      try apply addRaw_wellFormed; apply empty_wellFormed.
Qed.

(** *** The list only grows at its end *)

Lemma addCandidate_prefix (allowlist : option (gset string)) (acc : Collected)
    (c : ModelCandidate) (enforce : bool) :
  collected acc `prefix_of` collected (add allowlist acc c enforce).
Proof.
  destruct (addCandidate_cases allowlist acc c enforce) as [-> | (-> & _)]; [done|].
  simpl. by apply prefix_app_r.
Qed.

Lemma addAll_prefix (allowlist : option (gset string)) (defaultProvider : string)
    (raws : list string) :
  forall acc,
  collected acc `prefix_of`
  collected (foldl (fun acc raw => addRef allowlist defaultProvider acc raw true)
               acc raws).
Proof.
  induction raws as [|raw raws IH]; intros acc; [done|]. simpl.
  etrans; [|apply IH]. unfold addRaw.
  destruct (resolveModelRefFromString raw defaultProvider); [|done].
  apply addCandidate_prefix.
Qed.

(** X23.  The model the caller asked for is always tried first, also
    when an allowlist is configured that does not contain it; it is left
    out only when its provider or model name is empty after defaulting. *)
Theorem requested_candidate_comes_first (cfg : ModelConfig)
    (requestedProvider requestedModel : string)
    (fallbacksOverride : option (list string)) :
  named (requested cfg requestedProvider requestedModel) ->
  exists others,
    candidatesOf cfg requestedProvider requestedModel fallbacksOverride
    = requested cfg requestedProvider requestedModel :: others.
Proof.
  intros [Hp Hm]. unfold resolveFallbackCandidates.
  set (allowlist := allowedKeys cfg _).
  set (first := requested cfg requestedProvider requestedModel) in *.
  assert (Hfirst : collected (add allowlist (mkCollected ∅ []) first false) = [first]).
  { unfold addCandidate. apply String.eqb_neq in Hp, Hm. rewrite Hp, Hm. simpl.
    case_bool_decide as Hin; [by apply elem_of_empty in Hin|done]. }
  match goal with |- exists others, collected ?acc = _ =>
    assert (Hpre : [first] `prefix_of` collected acc) end.
  { rewrite <- Hfirst.
    destruct fallbacksOverride as [override|]; [|destruct (configured cfg)]; simpl;
      repeat (etrans; [|apply addCandidate_prefix]); apply addAll_prefix. }
  destruct Hpre as [others ->]. by exists others.
Qed.

(** *** Where a candidate comes from *)

Lemma addAll_origin (allowlist : option (gset string)) (defaultProvider : string)
    (raws : list string) (c : ModelCandidate) :
  forall acc,
  c ∈ collected (foldl (fun acc raw => addRef allowlist defaultProvider acc raw true)
                   acc raws) ->
  c ∈ collected acc \/
  exists raw, raw ∈ raws /\
    resolveModelRefFromString raw defaultProvider = Some c /\
    forall allowed, allowlist = Some allowed -> key c ∈ allowed.
Proof.
  induction raws as [|raw raws IH]; intros acc Hin; [by left|].
  simpl in Hin. apply IH in Hin as [Hin | (raw' & Hraw & Href & Hallowed)].
  - unfold addRaw in Hin.
    destruct (resolveModelRefFromString raw defaultProvider) as [ref|] eqn:Href;
      [|by left].
    destruct (addCandidate_cases allowlist acc ref true) as [Heq | (Heq & _ & _ & Hal)];
      rewrite Heq in Hin; [by left|]. simpl in Hin.
    apply elem_of_app in Hin as [Hin | Hin]; [by left|].
    apply list_elem_of_singleton in Hin. subst c. right.
    exists raw. split; [apply list_elem_of_here|]. split; [done|]. by apply Hal.
  - right. exists raw'. split; [by apply list_elem_of_further|done].
Qed.

(** X24.  Every text-model candidate is the requested model, or the
    configured primary (appended only when no override list is given),
    or a fallback that resolved from the list in use; with an allowlist
    in force a fallback is listed only if its key is on the allowlist.
    An override list replaces the configured fallbacks. *)
Theorem candidate_origin (cfg : ModelConfig) (requestedProvider requestedModel : string)
    (fallbacksOverride : option (list string)) (c : ModelCandidate) :
  let defaultProvider := default DEFAULT_PROVIDER (provider <$> configured cfg) in
  c ∈ candidatesOf cfg requestedProvider requestedModel fallbacksOverride ->
  c = requested cfg requestedProvider requestedModel \/
  (fallbacksOverride = None /\ configured cfg = Some c) \/
  exists raw,
    raw ∈ default (modelFallbacks cfg) fallbacksOverride /\
    resolveModelRefFromString raw defaultProvider = Some c /\
    forall allowed, allowedKeys cfg defaultProvider = Some allowed -> key c ∈ allowed.
Proof.
  intros defaultProvider Hin. unfold resolveFallbackCandidates in Hin.
  fold defaultProvider in Hin.
  set (allowlist := allowedKeys cfg defaultProvider) in *.
  set (first := requested cfg requestedProvider requestedModel) in *.
  assert (Hstart : forall c', c' ∈ collected (add allowlist (mkCollected ∅ []) first false)
                              -> c' = first).
  { intros c' Hc'.
    destruct (addCandidate_cases allowlist (mkCollected ∅ []) first false)
      as [Heq | (Heq & _)]; rewrite Heq in Hc'; simpl in Hc'.
    - by apply elem_of_nil in Hc'.
    - by apply list_elem_of_singleton in Hc'. }
  assert (Hloop : forall raws,
    c ∈ collected (foldl (fun acc raw => addRef allowlist defaultProvider acc raw true)
           (add allowlist (mkCollected ∅ []) first false) raws) ->
    c = first \/
    exists raw, raw ∈ raws /\ resolveModelRefFromString raw defaultProvider = Some c /\
      forall allowed, allowlist = Some allowed -> key c ∈ allowed).
  { intros raws H. apply addAll_origin in H as [H | H]; [left; by apply Hstart|by right]. }
  destruct fallbacksOverride as [override|]; simpl in Hin.
  - apply Hloop in Hin as [-> | H]; [by left|]. right. by right.
  - destruct (configured cfg) as [primary|] eqn:Hcfg.
    + match type of Hin with c ∈ collected (add _ ?acc _ _) =>
        destruct (addCandidate_cases allowlist acc primary false)
          as [Heq | (Heq & _)]; rewrite Heq in Hin; simpl in Hin end.
      * apply Hloop in Hin as [-> | H]; [by left|]. right. by right.
      * apply elem_of_app in Hin as [Hin | Hin].
        -- apply Hloop in Hin as [-> | H]; [by left|]. right. by right.
        -- apply list_elem_of_singleton in Hin. subst c. right. by left.
    + apply Hloop in Hin as [-> | H]; [by left|]. right. by right.
Qed.

End WithHelpers.

(** *** The properties above on a concrete configuration *)

Import Scenarios MoreScenarios.

Lemma requested_candidate_comes_first_witness :
  exists others,
    resolveFallbackCandidates "anthropic" "opus" keyOfModel refOf refOf modelConfig
      "" "sonnet" None
    = requestedCandidate "anthropic" "opus" modelConfig "" "sonnet" :: others.
Proof.
  refine (requested_candidate_comes_first "anthropic" "opus" keyOfModel refOf refOf
            modelConfig "" "sonnet" None _).
  split; vm_compute; discriminate.
Defined.

Lemma candidate_origin_witness :
  mkCandidate "openai" "gpt"
    = requestedCandidate "anthropic" "opus" modelConfig "" "sonnet" \/
  (@None (list string) = None /\ configured modelConfig = Some (mkCandidate "openai" "gpt")) \/
  exists raw,
    raw ∈ default (modelFallbacks modelConfig) None /\
    refOf raw "anthropic" = Some (mkCandidate "openai" "gpt") /\
    forall allowed,
      buildAllowedModelKeys keyOfModel refOf modelConfig "anthropic" = Some allowed ->
      keyOf keyOfModel (mkCandidate "openai" "gpt") ∈ allowed.
Proof.
  refine (candidate_origin "anthropic" "opus" keyOfModel refOf refOf modelConfig
            "" "sonnet" None (mkCandidate "openai" "gpt") _).
  apply list_elem_of_In. vm_compute. right. left. reflexivity.
Defined.

End CandidatesFacts.

(** ** The gateway call: target, credentials, first signal *)

Module GatewayMore.
Import Js GatewayCall GatewayTarget GatewayFacts.

Local Open Scope Z_scope.

(** *** trim is idempotent *)

Lemma trimStart_fixed (s : string) : trimStart (trimStart s) = trimStart s.
Proof.
  induction s as [|a r IH]; [done|]. simpl.
  destruct (isSpace a) eqn:Ha; [done|]. simpl. by rewrite Ha.
Qed.

Lemma trimStart_length (s : string) :
  (String.length (trimStart s) <= String.length s)%nat.
Proof.
  induction s as [|a r IH]; simpl; [lia|]. destruct (isSpace a); simpl; lia.
Qed.

Lemma trimStart_suffix (s : string) : exists p, s = String.append p (trimStart s).
Proof.
  induction s as [|a r [p IH]]; [by exists ""|]. simpl.
  destruct (isSpace a).
  - exists (String a p).
    change (String a r = String a (String.append p (trimStart r))). by f_equal.
  - by exists "".
Qed.

Lemma revOnto_revOnto (s : string) :
  forall a b, revOnto (revOnto s a) b = revOnto a (String.append s b).
Proof.
  induction s as [|c r IH]; intros a b; simpl; [done|]. by rewrite IH.
Qed.

Lemma revOnto_append (s t : string) :
  forall acc, revOnto (String.append s t) acc = revOnto t (revOnto s acc).
Proof.
  induction s as [|c r IH]; intros acc; simpl; [done|]. by rewrite IH.
Qed.

Lemma revOnto_involutive (s : string) : revOnto (revOnto s "") "" = s.
Proof.
  rewrite revOnto_revOnto. simpl.
  induction s as [|c r IH]; [done|].
  change (String c (String.append r "") = String c r). by f_equal.
Qed.

Lemma trimStart_head (s : string) :
  trimStart s = s <->
  match s with EmptyString => True | String a _ => isSpace a = false end.
Proof.
  destruct s as [|a r]; simpl; [done|].
  destruct (isSpace a); [|done]. split; [|done].
  intros H. pose proof (trimStart_length r) as Hl. rewrite H in Hl. simpl in Hl. lia.
Qed.

Lemma revOnto_head (u : string) :
  forall acc q,
  match revOnto u acc with
  | EmptyString => True
  | String a _ =>
      match revOnto u (String.append acc q) with
      | EmptyString => False
      | String b _ => a = b
      end
  end.
Proof.
  induction u as [|c r IH]; intros acc q; simpl.
  - destruct acc; simpl; done.
  - apply (IH (String c acc) q).
Qed.

Lemma trim_fixed_start (t : string) :
  trimStart t = t ->
  trimStart (revOnto (trimStart (revOnto t "")) "")
  = revOnto (trimStart (revOnto t "")) "".
Proof.
  intros Ht.
  destruct (trimStart_suffix (revOnto t "")) as [p Hp].
  set (u := trimStart (revOnto t "")) in *.
  assert (Htu : t = revOnto u (revOnto p "")).
  { rewrite <- (revOnto_involutive t) at 1. rewrite Hp. apply revOnto_append. }
  apply trimStart_head. apply trimStart_head in Ht.
  pose proof (revOnto_head u "" (revOnto p "")) as Hh.
  change (String.append "" (revOnto p "")) with (revOnto p "") in Hh.
  rewrite <- Htu in Hh.
  destruct (revOnto u "") as [|a r]; [done|].
  destruct t as [|b t']; [done|]. by subst.
Qed.

Lemma trim_idempotent (s : string) : trim (trim s) = trim s.
Proof.
  unfold trim.
  rewrite (trim_fixed_start (trimStart s)) by apply trimStart_fixed.
  by rewrite revOnto_involutive, trimStart_fixed.
Qed.

Lemma nonBlank_Some (v : option string) (s : string) :
  nonBlank v = Some s -> String.eqb s "" = false /\ trim s = s.
Proof.
  destruct v as [x|]; simpl; [|done].
  destruct (String.eqb (trim x) "") eqn:Hx; [done|].
  intros [= <-]. split; [done|apply trim_idempotent].
Qed.

Lemma nonBlank_idempotent (v : option string) : nonBlank (nonBlank v) = nonBlank v.
Proof.
  destruct (nonBlank v) as [s|] eqn:Hv; [|done].
  apply nonBlank_Some in Hv as [Hne Htrim]. simpl. by rewrite Htrim, Hne.
Qed.

Section WithEnvironment.

Variable localPort : Z.
Variable tailnetIPv4 : option string.
Variable configPath : string.
Variable envToken : option string.
Variable envPassword : option string.

Local Abbreviation target := (callTarget localPort tailnetIPv4 configPath envToken envPassword).
Local Abbreviation tokenOf := (gatewayToken envToken).
Local Abbreviation passwordOf := (gatewayPassword envPassword).

(** X25.  Where callGateway connects: a non-blank --url always wins;
    otherwise remote mode connects to the configured remote URL and
    fails with the misconfiguration error when there is none, never
    falling back to the local gateway; local mode ignores the remote URL
    and connects, on the resolved port and with the scheme tls.enabled
    selects, to the tailnet address when the gateway is bound to the
    tailnet and a tailnet address is found, and to 127.0.0.1 in every
    other case. *)
Theorem callTarget_url (config : GatewayConfig) (url optsToken optsPassword : option string) :
  match target config url optsToken optsPassword with
  | inl message =>
      isRemoteMode config = true /\ nonBlank url = None /\
      nonBlank (gc_remoteUrl config) = None /\
      message = misconfiguredMessage configPath
  | inr (address, _, _) =>
      match nonBlank url with
      | Some override => address = override
      | None =>
          if isRemoteMode config
          then nonBlank (gc_remoteUrl config) = Some address
          else
            let scheme := if gc_tlsEnabled config then "wss" else "ws" in
            (forall ip,
               gc_bind config = Some "tailnet" -> tailnetIPv4 = Some ip -> ip ≠ "" ->
               address = scheme +:+ "://" +:+ ip +:+ ":" +:+ showZ localPort) /\
            (gc_bind config ≠ Some "tailnet" \/ tailnetIPv4 = None
               \/ tailnetIPv4 = Some "" ->
             address = scheme +:+ "://" +:+ "127.0.0.1" +:+ ":" +:+ showZ localPort)
      end
  end.
Proof.
  unfold callTarget, remoteMisconfigured, buildGatewayConnectionDetails.
  rewrite nonBlank_idempotent. unfold remoteField.
  destruct (nonBlank url) as [override|] eqn:Hu.
  - rewrite andb_false_r. simpl.
    apply nonBlank_Some in Hu as [Hne _]. by rewrite Hne.
  - destruct (isRemoteMode config) eqn:Hmode; simpl.
    + destruct (nonBlank (gc_remoteUrl config)) as [r|] eqn:Hr; simpl; done.
    + unfold tailnetPresent. split.
      * intros ip -> -> Hip. simpl. apply String.eqb_neq in Hip. by rewrite Hip.
      * intros Hlocal.
        assert (Hloop : String.eqb (default "loopback" (gc_bind config)) "tailnet"
                        && match tailnetIPv4 with
                           | Some ip => negb (String.eqb ip "")
                           | None => false
                           end = false).
        { destruct Hlocal as [Hbind | [-> | ->]];
            [|apply andb_false_r|apply andb_false_r].
          apply andb_false_iff. left. apply String.eqb_neq.
          destruct (gc_bind config) as [b|]; simpl; [congruence|done]. }
        rewrite Hloop. by destruct (gc_tlsEnabled config).
Qed.

(** X26.  Which credentials callGateway sends.  An explicit non-blank
    token or password always wins.  Without one, remote mode takes the
    token from gateway.remote only (the environment token and the local
    auth token are not consulted), whereas a password set in the
    environment is used in either mode, before the configured one. *)
Theorem gateway_credentials (config : GatewayConfig)
    (optsToken optsPassword : option string) :
  (forall t, nonBlank optsToken = Some t -> tokenOf config optsToken = Some t) /\
  (forall p, nonBlank optsPassword = Some p -> passwordOf config optsPassword = Some p) /\
  (nonBlank optsToken = None -> isRemoteMode config = true ->
   tokenOf config optsToken = nonBlank (gc_remoteToken config)) /\
  (forall e, nonBlank optsPassword = None -> envPassword = Some e -> trim e <> "" ->
   passwordOf config optsPassword = Some (trim e)).
Proof.
  unfold gatewayToken, gatewayPassword, remoteField.
  split; [|split; [|split]].
  - intros t Ht. rewrite Ht. simpl. by apply nonBlank_Some in Ht as [-> _].
  - intros p Hp. rewrite Hp. simpl. by apply nonBlank_Some in Hp as [-> _].
  - intros -> ->. done.
  - intros e -> -> He. simpl. apply String.eqb_neq in He. by rewrite He.
Qed.

End WithEnvironment.

Section WithCall.

Context {T E : Type}.
Variable errTruthy : E -> bool.
Variable details : string.
Variable timeoutMs : Z.

Local Abbreviation after := (afterSignals (T := T) errTruthy details timeoutMs).
Local Abbreviation step := (handle (T := T) errTruthy details timeoutMs).

Lemma handle_keeps_released (sig : Signal T E) (st : CallState T E) :
  settled st = true -> timerCleared st = true -> (1 <= clientStops st)%nat ->
  settled (step sig st) = true /\ timerCleared (step sig st) = true /\
  (1 <= clientStops (step sig st))%nat.
Proof.
  intros Hs Ht Hc.
  destruct sig; unfold handle, stop, clientStop, setIgnoreClose; simpl;
    rewrite ?Hs; simpl; rewrite ?Hs; simpl; repeat split; try done; lia.
Qed.

Lemma handle_many_released (sigs : list (Signal T E)) :
  forall st : CallState T E,
  settled st = true -> timerCleared st = true -> (1 <= clientStops st)%nat ->
  timerCleared (fold_left (fun s sig => step sig s) sigs st) = true /\
  (1 <= clientStops (fold_left (fun s sig => step sig s) sigs st))%nat.
Proof.
  induction sigs as [|sig sigs IH]; intros st Hs Ht Hc; simpl; [done|].
  destruct (handle_keeps_released sig st Hs Ht Hc) as (Hs' & Ht' & Hc').
  by apply IH.
Qed.

(** X27.  Whatever happens first after the client is started decides the
    call, and nothing later changes it: a completed request resolves
    with its result, a failed request rejects with the caught value (but
    resolves with undefined when that value is falsy), a close rejects
    with the close error and the timer with the timeout error.  The
    promise is settled exactly once, the timer is cleared and the client
    has been stopped. *)
Theorem first_signal_decides (sig : Signal T E) (later : list (Signal T E)) :
  promise (after (sig :: later))
  = Some match sig with
         | RequestOk result => Resolved (Some result)
         | RequestFailed err =>
             if errTruthy err then Rejected (Caught err) else Resolved None
         | Closed code reason =>
             Rejected (NewError (formatCloseError details code reason))
         | TimerFired => Rejected (NewError (formatTimeoutError details timeoutMs))
         end /\
  settleCalls (after (sig :: later)) = 1%nat /\
  timerCleared (after (sig :: later)) = true /\
  (1 <= clientStops (after (sig :: later)))%nat.
Proof.
  unfold afterSignals. simpl fold_left.
  set (st := step sig (initial (T := T) (E := E))).
  assert (H : settled st = true /\ timerCleared st = true /\
              (1 <= clientStops st)%nat /\ settleCalls st = 1%nat /\
              promise st = Some match sig with
                | RequestOk result => Resolved (Some result)
                | RequestFailed err =>
                    if errTruthy err then Rejected (Caught err) else Resolved None
                | Closed code reason =>
                    Rejected (NewError (formatCloseError details code reason))
                | TimerFired =>
                    Rejected (NewError (formatTimeoutError details timeoutMs))
                end).
  { unfold st. destruct sig; simpl; repeat split; try done; lia. }
  destruct H as (Hs & Ht & Hc & Hn & Hp).
  destruct (handle_many_settled errTruthy details timeoutMs later st Hs) as [-> ->].
  destruct (handle_many_released later st Hs Ht Hc) as [-> Hstops].
  done.
Qed.

End WithCall.

(** *** The credentials of a remote gateway *)

Import Scenarios MoreScenarios.

Lemma callTarget_url_witness :
  callTarget 18789 (Some "100.64.0.7") "moltbot.json" None None tailnetConfig
    None None None
  = inr ("wss" +:+ "://" +:+ "100.64.0.7" +:+ ":" +:+ showZ 18789, None, None).
Proof.
  pose proof (callTarget_url 18789 (Some "100.64.0.7") "moltbot.json" None None
                tailnetConfig None None None) as H.
  destruct (callTarget 18789 (Some "100.64.0.7") "moltbot.json" None None tailnetConfig
              None None None) as [message|[[address token] password]] eqn:Hcall.
  - destruct H as [Hremote _]. vm_compute in Hremote. discriminate Hremote.
  - simpl in H. destruct H as [Htailnet _].
    rewrite (Htailnet "100.64.0.7"); [|reflexivity|reflexivity|discriminate].
    vm_compute in Hcall. injection Hcall as _ <- <-. reflexivity.
Defined.

Lemma gateway_credentials_witness :
  gatewayToken (Some "env-token") remoteConfig None = Some "remote-token" /\
  gatewayPassword (Some "env-password") remoteConfig None = Some "env-password".
Proof.
  destruct (gateway_credentials (Some "env-token") (Some "env-password") remoteConfig
              None None) as (_ & _ & Htoken & Hpassword).
  split.
  - apply Htoken; reflexivity.
  - apply (Hpassword "env-password"); [reflexivity|reflexivity|vm_compute; discriminate].
Defined.

End GatewayMore.

(** ** The agent command of the CLI *)

Module AgentCliFacts.
Import AgentCli.

Section WithCommands.

Context {R E St : Type}.
Variable stringOf : E -> string + E.
Variable agentViaGatewayCommand : St -> (R + E) * St.
Variable agentCommand : St -> (R + E) * St.
Variable runtimeError : option (string -> St -> option E * St).

(** X28.  What the caller of agentCliCommand can be thrown.  Either the
    embedded agentCommand was the last thing run and the error is the
    one it threw, or the report of the gateway failure failed:
    runtime.error is present, and String(err) or runtime.error itself
    threw before the embedded command was started.  Without
    runtime.error every thrown error is the embedded command's.  With
    --local the gateway is not contacted, and after a gateway success
    the embedded command is not run. *)
Theorem agentCliCommand_thrown_error_origin (local : bool) (st : St) :
  (forall err st' log,
     agentCliCommand stringOf agentViaGatewayCommand agentCommand runtimeError
       local st = (inr err, st', log) ->
     (last log = Some EvEmbedded /\
      exists st0, agentCommand st0 = (inr err, st')) \/
     ((EvEmbedded ∉ log) /\
      exists report gatewayError st1,
        runtimeError = Some report /\
        agentViaGatewayCommand st = (inr gatewayError, st1) /\
        (stringOf gatewayError = inr err \/
         exists text,
           stringOf gatewayError = inl text /\
           report ("Gateway agent failed; falling back to embedded: " +:+ text) st1
           = (Some err, st')))) /\
  (runtimeError = None ->
   forall err st' log,
     agentCliCommand stringOf agentViaGatewayCommand agentCommand runtimeError
       local st = (inr err, st', log) ->
     last log = Some EvEmbedded /\ exists st0, agentCommand st0 = (inr err, st')) /\
  (local = true ->
   EvGateway ∉ (agentCliCommand stringOf agentViaGatewayCommand agentCommand
                  runtimeError local st).2) /\
  (forall result st1,
     local = false -> agentViaGatewayCommand st = (inl result, st1) ->
     agentCliCommand stringOf agentViaGatewayCommand agentCommand runtimeError
       local st = (inl result, st1, [EvGateway])).
Proof.
  assert (Hthrown : forall err st' log,
    agentCliCommand stringOf agentViaGatewayCommand agentCommand runtimeError
      local st = (inr err, st', log) ->
    (last log = Some EvEmbedded /\
     exists st0, agentCommand st0 = (inr err, st')) \/
    ((EvEmbedded ∉ log) /\
     exists report gatewayError st1,
       runtimeError = Some report /\
       agentViaGatewayCommand st = (inr gatewayError, st1) /\
       (stringOf gatewayError = inr err \/
        exists text,
          stringOf gatewayError = inl text /\
          report ("Gateway agent failed; falling back to embedded: " +:+ text) st1
          = (Some err, st')))).
  { intros err st' log H. unfold agentCliCommand in H. destruct local.
    - destruct (agentCommand st) as [r st1] eqn:Ha.
      injection H as -> -> <-. left. split; [done|]. by exists st.
    - destruct (agentViaGatewayCommand st) as [[result|gerr] st1] eqn:Hg; [done|].
      destruct runtimeError as [report|] eqn:Hreport.
      + destruct (stringOf gerr) as [text|thrown] eqn:Hs.
        * destruct (report _ st1) as [[thrown|] st2] eqn:Hr.
          -- injection H as <- <- <-. right. split.
             ++ intros Hin. repeat (apply elem_of_cons in Hin as [Hin|Hin]; [done|]).
                by apply elem_of_nil in Hin.
             ++ exists report, gerr, st1. split; [done|]. split; [done|].
                right. by exists text.
          -- destruct (agentCommand st2) as [r st3] eqn:Ha.
             injection H as -> -> <-. left. split; [done|]. by exists st2.
        * injection H as <- <- <-. right. split.
          -- intros Hin. repeat (apply elem_of_cons in Hin as [Hin|Hin]; [done|]).
             by apply elem_of_nil in Hin.
          -- exists report, gerr, st1. split; [done|]. split; [done|]. by left.
      + destruct (agentCommand st1) as [r st2] eqn:Ha.
        injection H as -> -> <-. left. split; [done|]. by exists st1. }
  split; [exact Hthrown|]. split; [|split].
  - intros Hnone err st' log H.
    destruct (Hthrown err st' log H) as [Hembedded | (_ & report & _ & _ & Hsome & _)];
      [done|congruence].
  - intros ->. unfold agentCliCommand. destruct (agentCommand st) as [r st1]. simpl.
    intros H. apply list_elem_of_singleton in H. discriminate.
  - intros result st1 -> Hg. unfold agentCliCommand. by rewrite Hg.
Qed.

End WithCommands.

(** *** The property above with the gateway down *)

Import Scenarios MoreScenarios.

Lemma agentCliCommand_thrown_error_origin_witness :
  last [EvGateway;
        EvReport "Gateway agent failed; falling back to embedded: ECONNREFUSED";
        EvEmbedded] = Some EvEmbedded /\
  exists st0,
    brokenEmbedded st0
    = (inr "no model configured",
       ["Gateway agent failed; falling back to embedded: ECONNREFUSED"]).
Proof.
  destruct (proj1 (agentCliCommand_thrown_error_origin textOf gatewayDown
                     brokenEmbedded (Some report) false [])
              "no model configured"
              ["Gateway agent failed; falling back to embedded: ECONNREFUSED"]
              [EvGateway;
               EvReport "Gateway agent failed; falling back to embedded: ECONNREFUSED";
               EvEmbedded]) as [Hembedded | [Hnot _]].
  - vm_compute; reflexivity.
  - exact Hembedded.
  - destruct Hnot. apply list_elem_of_further, list_elem_of_further, list_elem_of_here.
Defined.

End AgentCliFacts.

(** ** Argument vector of the CLI *)

Module CliFacts.
Import Cli.

Lemma indexOf_none (x : string) (argv : list string) :
  x ∉ argv -> indexOf x argv = None.
Proof.
  induction argv as [|a rest IH]; intros Hnot; [done|]. simpl.
  destruct (String.eqb a x) eqn:Ha.
  - apply String.eqb_eq in Ha. subst a. destruct Hnot. apply list_elem_of_here.
  - rewrite IH; [done|]. intros H. apply Hnot. by apply list_elem_of_further.
Qed.

Lemma indexOf_first (x : string) (pre post : list string) :
  x ∉ pre -> indexOf x (pre ++ x :: post) = Some (length pre).
Proof.
  induction pre as [|a pre IH]; intros Hnot; simpl.
  - by rewrite String.eqb_refl.
  - destruct (String.eqb a x) eqn:Ha.
    + apply String.eqb_eq in Ha. subst a. destruct Hnot. apply list_elem_of_here.
    + rewrite IH; [done|]. intros H. apply Hnot. by apply list_elem_of_further.
Qed.

(** X29.  rewriteUpdateFlagArgv turns the first "--update" into
    "update" and touches nothing else: later occurrences stay, the
    number of arguments is unchanged, and an argument vector without the
    flag is returned as it is. *)
Theorem rewriteUpdateFlagArgv_first_only (argv : list string) :
  ("--update" ∉ argv -> rewriteUpdateFlagArgv argv = argv) /\
  (forall pre post,
     argv = pre ++ "--update" :: post -> "--update" ∉ pre ->
     rewriteUpdateFlagArgv argv = pre ++ "update" :: post) /\
  length (rewriteUpdateFlagArgv argv) = length argv.
Proof.
  unfold rewriteUpdateFlagArgv. split; [|split].
  - intros Hnot. by rewrite indexOf_none.
  - intros pre post -> Hnot. rewrite indexOf_first by done.
    rewrite insert_app_r_alt by lia. by rewrite Nat.sub_diag.
  - destruct (indexOf "--update" argv); [apply length_insert|done].
Qed.

Section Windows.

Variable isExecPath : string -> bool.

Lemma spliceIfExecPath_clean (i : nat) (cleaned : list string) :
  (forall arg, cleaned !! i = Some arg -> isExecPath arg = false) ->
  spliceIfExecPath isExecPath i cleaned = cleaned.
Proof.
  intros H. unfold spliceIfExecPath.
  destruct (cleaned !! i) as [arg|] eqn:Hi; [|done]. by rewrite (H arg).
Qed.

(** X30.  On Windows stripWindowsNodeExec keeps the first argument and
    drops every later argument that names the node executable, keeping
    the others in order; the second cleaning pass never removes
    anything.  On other platforms the arguments are returned as they
    are. *)
Theorem stripWindowsNodeExec_filters (win32 : bool) (first : string)
    (rest : list string) :
  stripWindowsNodeExec win32 isExecPath (first :: rest)
  = if win32 then first :: filter (fun arg => isExecPath arg = false) rest
    else first :: rest.
Proof.
  unfold stripWindowsNodeExec. destruct win32; simpl negb; cbv iota; [|done].
  unfold filterExecPaths.
  set (kept := filter (fun arg => isExecPath arg = false) rest).
  assert (Hkept : forall i arg, kept !! i = Some arg -> isExecPath arg = false).
  { intros i arg Hi. apply list_elem_of_lookup_2 in Hi.
    by apply list_elem_of_filter in Hi as [Hi _]. }
  destruct (length (first :: kept) <? 3)%nat; [done|].
  rewrite (spliceIfExecPath_clean 1).
  - apply spliceIfExecPath_clean. intros arg Hi. by apply (Hkept 1%nat).
  - intros arg Hi. by apply (Hkept 0%nat).
Qed.

End Windows.

(** *** The property above on a command line *)

Lemma rewriteUpdateFlagArgv_first_only_witness :
  rewriteUpdateFlagArgv ["node"; "cli"; "--update"; "--update"]
  = ["node"; "cli"] ++ "update" :: ["--update"].
Proof.
  refine (proj1 (proj2 (rewriteUpdateFlagArgv_first_only
                          ["node"; "cli"; "--update"; "--update"]))
            ["node"; "cli"] ["--update"] eq_refl _).
  intros H.
  repeat (apply elem_of_cons in H as [H | H]; [discriminate H|]).
  by apply elem_of_nil in H.
Defined.

End CliFacts.
